(** * twemproxy_exporter: the stats translator [parseStats] and the poll
    cycle [Monitor.Run], embedded from exporter_stats.go, exporter_config.go
    and exporter.go. *)

From Stdlib Require Import ZArith Floats.
From stdpp Require Import gmap strings list fin_maps.

Local Open Scope Z_scope.

(** ** Go values *)

(** Go's [int] on a 64-bit platform: a two's-complement 64-bit integer.
    Additions wrap around. *)
Definition int_min : Z := - 2 ^ 63.
Definition int_max : Z := 2 ^ 63 - 1.

Definition wrap (z : Z) : Z := (z + 2 ^ 63) `mod` 2 ^ 64 - 2 ^ 63.

Definition int_add (x y : Z) : Z := wrap (x + y).

(** [len] of a slice, an [int]: a slice has fewer than [2 ^ 63] elements. *)
Definition len {A} (l : list A) : Z := Z.of_nat (length l).

(** The dynamic types [encoding/json] stores in an [interface{}]. *)
Inductive gotype :=
  | TNil | TBool | TFloat64 | TString | TSlice | TMap.

(** What [json.Unmarshal] puts in an [interface{}]: nil, bool, float64,
    string, []interface{} or map[string]interface{}. *)
#[warnings="-register-all"]
Inductive JValue :=
  | JNil
  | JBool (b : bool)
  | JFloat64 (f : float)
  | JString (s : string)
  | JSlice (l : list JValue)
  | JMap (m : gmap string JValue).

Definition dyntype (v : option JValue) : gotype :=
  match v with
  | None | Some JNil => TNil
  | Some (JBool _) => TBool
  | Some (JFloat64 _) => TFloat64
  | Some (JString _) => TString
  | Some (JSlice _) => TSlice
  | Some (JMap _) => TMap
  end.

(** Run-time panics of the program: a failed type assertion [x.(T)]
    ("interface conversion: interface {} is D, not T") and a method call
    through a nil interface. *)
Inductive panic :=
  | InterfaceConversion (dyn want : gotype)
  | NilDereference.

(** A Go [error] value, by its message. *)
Inductive error := Error (msg : string).

(** A call either returns or panics. *)
Inductive outcome (A : Type) :=
  | Return (a : A)
  | Panic (p : panic).
Arguments Return {A} a.
Arguments Panic {A} p.

(** Sequencing: a panic in [c] unwinds past the rest of the function. *)
#[global] Instance outcome_ret : MRet outcome := λ _ a, Return a.
#[global] Instance outcome_bind : MBind outcome := λ _ _ k c,
  match c with
  | Return a => k a
  | Panic p => Panic p
  end.

(** The type assertions [x.(string)], [x.(float64)] and
    [x.(map[string]interface{})] on the result of a map index expression.
    Indexing a missing key yields the nil interface, so [None] asserts like
    [JNil]. *)
Definition assertString (v : option JValue) : outcome string :=
  match v with
  | Some (JString s) => Return s
  | _ => Panic (InterfaceConversion (dyntype v) TString)
  end.

Definition assertFloat64 (v : option JValue) : outcome float :=
  match v with
  | Some (JFloat64 f) => Return f
  | _ => Panic (InterfaceConversion (dyntype v) TFloat64)
  end.

Definition assertMap (v : option JValue) : outcome (gmap string JValue) :=
  match v with
  | Some (JMap m) => Return m
  | _ => Panic (InterfaceConversion (dyntype v) TMap)
  end.

(** A [for ... range] loop over the elements [l] with loop state [s]; a
    [continue] is a body that returns its state early. *)
Fixpoint rangeM {A S} (body : A → S → outcome S) (l : list A) (s : S)
  : outcome S :=
  match l with
  | [] => Return s
  | x :: l' => s' ← body x s; rangeM body l' s'
  end.

(** ** exporter_config.go *)

Module Server.
Record t := mk { IP : string; Alias : string }.
End Server.

Module Config.
Record t := mk {
  ConfigName : string;
  Hash : string;
  HashTag : string;
  Distribution : string;
  AutoEjectHosts : bool;
  Timeout : Z;
  Protocol : string;
  Redis : bool;
  Servers : list Server.t
}.

(** The zero value, which indexing a map with a missing key returns. *)
Definition zero : t := mk "" "" "" "" false 0 "" false [].
End Config.

(** [config[key]] *)
Definition configAt (config : gmap string Config.t) (key : string) : Config.t :=
  default Config.zero (config !! key).

(** ** exporter_stats.go *)

Module ServerStats.
Record t := mk {
  Host : string;
  HostAlias : string;
  ServerEOF : float;
  ServerErr : float;
  ServerTimedout : float;
  ServerConnections : float;
  ServerEjectedAt : float;
  Requests : float;
  RequestBytes : float;
  Responses : float;
  ResponseBytes : float;
  InQueue : float;
  InQueueBytes : float;
  OutQueue : float;
  OutQueueBytes : float
}.
End ServerStats.

Module ServiceStats.
Record t := mk {
  Name : string;
  ClientEOF : float;
  ClientErr : float;
  ClientConnections : float;
  ServerEjects : float;
  ForwardError : float;
  Fragments : float;
  ExpectedAvailable : Z;
  NotAvailable : Z;
  Servers : gmap string ServerStats.t
}.

Definition setNotAvailable (n : Z) (s : t) : t :=
  mk (Name s) (ClientEOF s) (ClientErr s) (ClientConnections s)
     (ServerEjects s) (ForwardError s) (Fragments s)
     (ExpectedAvailable s) n (Servers s).

Definition setServers (m : gmap string ServerStats.t) (s : t) : t :=
  mk (Name s) (ClientEOF s) (ClientErr s) (ClientConnections s)
     (ServerEjects s) (ForwardError s) (Fragments s)
     (ExpectedAvailable s) (NotAvailable s) m.

(** [serviceStats.NotAvailable++] *)
Definition incNotAvailable (s : t) : t :=
  setNotAvailable (int_add (NotAvailable s) 1) s.

(** [serviceStats.Servers[host] = serverStats] *)
Definition putServer (host : string) (x : ServerStats.t) (s : t) : t :=
  setServers (<[host := x]> (Servers s)) s.
End ServiceStats.

Module TwemproxyStats.
Record t := mk {
  Service : string;
  Source : string;
  TotalConnections : float;
  CurrentConnections : float;
  ExpectedAvailable : Z;
  NotAvailable : Z;
  Services : gmap string ServiceStats.t
}.

(** [TwemproxyStats{}]; a nil map reads like an empty one. *)
Definition zero : t := mk "" "" 0%float 0%float 0 0 ∅.

(** [twemp.ExpectedAvailable += n] *)
Definition addExpectedAvailable (n : Z) (s : t) : t :=
  mk (Service s) (Source s) (TotalConnections s) (CurrentConnections s)
     (int_add (ExpectedAvailable s) n) (NotAvailable s) (Services s).

Definition setNotAvailable (n : Z) (s : t) : t :=
  mk (Service s) (Source s) (TotalConnections s) (CurrentConnections s)
     (ExpectedAvailable s) n (Services s).

(** [twemp.NotAvailable++] *)
Definition incNotAvailable (s : t) : t :=
  setNotAvailable (int_add (NotAvailable s) 1) s.

(** [twemp.Services[key] = serviceStats] *)
Definition putService (key : string) (x : ServiceStats.t) (s : t) : t :=
  mk (Service s) (Source s) (TotalConnections s) (CurrentConnections s)
     (ExpectedAvailable s) (NotAvailable s) (<[key := x]> (Services s)).
End TwemproxyStats.

(** Lines 93-98: the key a backend is looked up under. *)
Definition hostOf (val : Server.t) : string :=
  if decide (Server.Alias val ≠ "") then Server.Alias val else Server.IP val.

(** Lines 105-122: the [ServerStats] literal, fields evaluated in order. *)
Definition serverStatsOf (host hostAlias : string) (srv : gmap string JValue)
  : outcome ServerStats.t :=
  serverEOF ← assertFloat64 (srv !! "server_eof");
  serverErr ← assertFloat64 (srv !! "server_err");
  serverTimedout ← assertFloat64 (srv !! "server_timedout");
  serverConnections ← assertFloat64 (srv !! "server_connections");
  serverEjectedAt ← assertFloat64 (srv !! "server_ejected_at");
  requests ← assertFloat64 (srv !! "requests");
  requestBytes ← assertFloat64 (srv !! "request_bytes");
  responses ← assertFloat64 (srv !! "responses");
  responseBytes ← assertFloat64 (srv !! "response_bytes");
  inQueue ← assertFloat64 (srv !! "in_queue");
  inQueueBytes ← assertFloat64 (srv !! "in_queue_bytes");
  outQueue ← assertFloat64 (srv !! "out_queue");
  outQueueBytes ← assertFloat64 (srv !! "out_queue_bytes");
  Return (ServerStats.mk host hostAlias serverEOF serverErr serverTimedout
            serverConnections serverEjectedAt requests requestBytes responses
            responseBytes inQueue inQueueBytes outQueue outQueueBytes).

(** Lines 92-130: one iteration of the loop over [config[key].Servers]; the
    loop state is the pair of [twemp] and [serviceStats]. *)
Definition serverBody (service : gmap string JValue) (val : Server.t)
    (st : TwemproxyStats.t * ServiceStats.t)
  : outcome (TwemproxyStats.t * ServiceStats.t) :=
  let host := hostOf val in
  let hostAlias := Server.IP val in
  match service !! host with
  | None =>
      Return (TwemproxyStats.incNotAvailable st.1,
              ServiceStats.incNotAvailable st.2)
  | Some se =>
      srv ← assertMap (Some se);
      serverStats ← serverStatsOf host hostAlias srv;
      let serviceStats := ServiceStats.putServer host serverStats st.2 in
      if PrimFloat.ltb (ServerStats.ServerConnections serverStats) 1%float
      then Return (TwemproxyStats.incNotAvailable st.1,
                   ServiceStats.incNotAvailable serviceStats)
      else Return (st.1, serviceStats)
  end.

(** Lines 70-132: one iteration of the loop over the keys of [config]. *)
Definition serviceBody (stats : gmap string JValue)
    (config : gmap string Config.t) (key : string) (twemp : TwemproxyStats.t)
  : outcome TwemproxyStats.t :=
  let servers := Config.Servers (configAt config key) in
  let serviceStats :=
    ServiceStats.mk key 0%float 0%float 0%float 0%float 0%float 0%float
      (len servers) 0 ∅ in
  match stats !! key with
  | None => Return twemp
  | Some s =>
      let twemp := TwemproxyStats.addExpectedAvailable (len servers) twemp in
      service ← assertMap (Some s);
      clientEOF ← assertFloat64 (service !! "client_eof");
      clientErr ← assertFloat64 (service !! "client_err");
      clientConnections ← assertFloat64 (service !! "client_connections");
      serverEjects ← assertFloat64 (service !! "server_ejects");
      forwardError ← assertFloat64 (service !! "forward_error");
      fragments ← assertFloat64 (service !! "fragments");
      let serviceStats :=
        ServiceStats.mk (ServiceStats.Name serviceStats) clientEOF clientErr
          clientConnections serverEjects forwardError fragments
          (ServiceStats.ExpectedAvailable serviceStats)
          (ServiceStats.NotAvailable serviceStats)
          (ServiceStats.Servers serviceStats) in
      st ← rangeM (serverBody service) servers (twemp, serviceStats);
      Return (TwemproxyStats.putService key st.2 st.1)
  end.

(** Lines 61-133, after the document has been decoded into [stats]. [order]
    is the order in which the runtime's [range] visits the keys of
    [config]. *)
Definition parseTree (order : list string) (stats : gmap string JValue)
    (config : gmap string Config.t) : outcome TwemproxyStats.t :=
  service ← assertString (stats !! "service");
  source ← assertString (stats !! "source");
  totalConnections ← assertFloat64 (stats !! "total_connections");
  currentConnections ← assertFloat64 (stats !! "curr_connections");
  rangeM (serviceBody stats config) order
    (TwemproxyStats.mk service source totalConnections currentConnections
       0 0 ∅).

(** A [range] over a map visits every key once, in an unspecified order. *)
Definition rangeOrder {V} (m : gmap string V) (order : list string) : Prop :=
  order ≡ₚ (map_to_list m).*1.

(** [encoding/json]'s [Unmarshal] into a [map[string]interface{}]: an error,
    or the decoded top-level object. *)
Class Decoder := json_Unmarshal : list Byte.byte → error + gmap string JValue.

Section parseStats.
Context {json : Decoder}.

Definition parseStats (order : list string) (statsContent : list Byte.byte)
    (config : gmap string Config.t)
  : outcome (TwemproxyStats.t * option error) :=
  match json_Unmarshal statsContent with
  | inl err => Return (TwemproxyStats.zero, Some err)
  | inr stats =>
      twemp ← parseTree order stats config;
      Return (twemp, None)
  end.
End parseStats.

(** ** exporter.go *)

Module Monitor.
Record t := mk { Config : gmap string Config.t; tcpHost : string }.
End Monitor.

(** [NewMonitor] *)
Definition NewMonitor (conf : gmap string Config.t) (host : string)
  : Monitor.t * option error :=
  let host := if decide (host = "") then "localhost:22222" else host in
  (Monitor.mk conf host, None).

(** The registered gauge vectors [twemproxyMetrics] and [serverMetrics]:
    a gauge is found by the key of its vector in the Go map and by its
    label values. *)
Module Gauges.
Record t := mk {
  twemproxyMetrics : gmap (string * list string) float;
  serverMetrics : gmap (string * list string) float
}.

Definition empty : t := mk ∅ ∅.

(** [twemproxyMetrics[key].WithLabelValues(labels...).Set(v)] *)
Definition setTwemproxy (key : string) (labels : list string) (v : float)
    (g : t) : t :=
  mk (<[(key, labels) := v]> (twemproxyMetrics g)) (serverMetrics g).

(** [serverMetrics[key].WithLabelValues(labels...).Set(v)] *)
Definition setServer (key : string) (labels : list string) (v : float)
    (g : t) : t :=
  mk (twemproxyMetrics g) (<[(key, labels) := v]> (serverMetrics g)).
End Gauges.

(** What the network gives one cycle: [net.Dial] fails and returns a nil
    connection, or it connects and the one [conn.Read] delivers [data]
    with an optional error. *)
Inductive dialResult :=
  | DialError (err : error)
  | Connected (data : list Byte.byte) (readErr : option error).

(** Lines 205-211. *)
Definition publishServer (hostname serviceName : string)
    (server : ServerStats.t) (g : Gauges.t) : Gauges.t :=
  let labels := [hostname; serviceName; ServerStats.HostAlias server] in
  let g := Gauges.setServer "in_queue" labels (ServerStats.InQueue server) g in
  let g := Gauges.setServer "in_queue_bytes" labels
             (ServerStats.InQueueBytes server) g in
  let g := Gauges.setServer "err" labels (ServerStats.ServerErr server) g in
  let g := Gauges.setServer "eof" labels (ServerStats.ServerEOF server) g in
  let g := Gauges.setServer "timed_out" labels
             (ServerStats.ServerTimedout server) g in
  let g := Gauges.setServer "server_connection" labels
             (ServerStats.ServerConnections server) g in
  Gauges.setServer "server_ejected_at" labels
    (ServerStats.ServerEjectedAt server) g.

(** Lines 201-213. The two ranges visit the maps in the order of
    [map_to_list]; the Go runtime may pick any other. *)
Definition publish (hostname : string) (stats : TwemproxyStats.t)
    (g : Gauges.t) : Gauges.t :=
  let g := Gauges.setTwemproxy "total_connections" [hostname]
             (TwemproxyStats.TotalConnections stats) g in
  let g := Gauges.setTwemproxy "current_connections" [hostname]
             (TwemproxyStats.CurrentConnections stats) g in
  foldl (λ g '(serviceName, service),
           foldl (λ g '(_, server), publishServer hostname serviceName server g)
             g (map_to_list (ServiceStats.Servers service)))
    g (map_to_list (TwemproxyStats.Services stats)).

Section exporter.
Context {json : Decoder}.

(** [Monitor.Run], lines 184-215. The three [if err != nil] blocks only
    log (logging is not modelled) and fall through: after a failed dial
    [conn] is nil and line 191 calls [Read] through it; after a failed
    parse [stats] is the zero snapshot and is published. *)
Definition Run (hostname : string) (order : list string) (m : Monitor.t)
    (net : dialResult) (g : Gauges.t) : outcome (Gauges.t * option error) :=
  match net with
  | DialError _ => Panic NilDereference
  | Connected data _ =>
      let reply := take (Z.to_nat 8192) data in
      r ← parseStats order reply (Monitor.Config m);
      Return (publish hostname r.1 g, None)
  end.

(** The polling goroutine of [main], lines 127-139, over the ticks that
    fire: each comes with what the network gives and the order its ranges
    take. Nothing recovers a panic, which ends the process. *)
Definition poll (hostname : string) (m : Monitor.t)
    (ticks : list (list string * dialResult)) (g : Gauges.t)
  : outcome Gauges.t :=
  rangeM (λ tick g, r ← Run hostname tick.1 m tick.2 g; Return r.1) ticks g.
End exporter.

(** ** What one iteration contributes

    The loops thread [twemp] and [serviceStats] through their bodies, but
    whether an iteration panics, which entry it emits and what it adds to
    the counters depend on the payload and the topology only. The
    definitions below name those contributions; they are obtained from the
    loop bodies themselves. *)

Definition int_ok (z : Z) : Prop := int_min ≤ z ≤ int_max.

(** The first panic met when [f] is run on the elements of [l] in turn. *)
Fixpoint firstPanic {A B} (f : A → outcome B) (l : list A) : option panic :=
  match l with
  | [] => None
  | x :: l' =>
      match f x with
      | Panic p => Some p
      | Return _ => firstPanic f l'
      end
  end.

(** The entry one backend emits: none when its key is missing from the
    service block (lines 99-104), else the literal of lines 105-122. *)
Definition entryOf (service : gmap string JValue) (val : Server.t)
  : outcome (option ServerStats.t) :=
  match service !! hostOf val with
  | None => Return None
  | Some se =>
      srv ← assertMap (Some se);
      serverStats ← serverStatsOf (hostOf val) (Server.IP val) srv;
      Return (Some serverStats)
  end.

(** Whether the backend is counted in [NotAvailable]: its key is missing
    (line 100) or its [ServerConnections] is below one (line 126). *)
Definition isDown (o : option ServerStats.t) : bool :=
  match o with
  | None => true
  | Some serverStats =>
      PrimFloat.ltb (ServerStats.ServerConnections serverStats) 1%float
  end.

Definition down (service : gmap string JValue) (val : Server.t) : bool :=
  match entryOf service val with
  | Return o => isDown o
  | Panic _ => false
  end.

(** What a backend adds to [NotAvailable]. *)
Definition contribution (service : gmap string JValue) (val : Server.t) : nat :=
  if down service val then 1%nat else 0%nat.

Definition downCount (service : gmap string JValue) (servers : list Server.t)
  : nat :=
  sum_list_with (contribution service) servers.

(** The effect of line 123 on [serviceStats.Servers]. *)
Definition emit (service : gmap string JValue)
    (servers : gmap string ServerStats.t) (val : Server.t)
  : gmap string ServerStats.t :=
  match entryOf service val with
  | Return (Some serverStats) => <[hostOf val := serverStats]> servers
  | _ => servers
  end.

(** The state after one iteration of the inner loop that emitted [o]. *)
Definition applyEntry (val : Server.t) (o : option ServerStats.t)
    (st : TwemproxyStats.t * ServiceStats.t)
  : TwemproxyStats.t * ServiceStats.t :=
  let serviceStats :=
    match o with
    | Some serverStats => ServiceStats.putServer (hostOf val) serverStats st.2
    | None => st.2
    end in
  if isDown o
  then (TwemproxyStats.incNotAvailable st.1,
        ServiceStats.incNotAvailable serviceStats)
  else (st.1, serviceStats).

(** The [ServiceStats] that the iteration for [key] stores in
    [twemp.Services], if any: the body run on a fresh snapshot. *)
Definition serviceStatsOf (stats : gmap string JValue)
    (config : gmap string Config.t) (key : string)
  : outcome (option ServiceStats.t) :=
  twemp ← serviceBody stats config key TwemproxyStats.zero;
  Return (TwemproxyStats.Services twemp !! key).

(** The snapshot after the iteration for [key] stored [o]. *)
Definition absorb (key : string) (o : option ServiceStats.t)
    (twemp : TwemproxyStats.t) : TwemproxyStats.t :=
  match o with
  | None => twemp
  | Some serviceStats =>
      TwemproxyStats.mk (TwemproxyStats.Service twemp)
        (TwemproxyStats.Source twemp) (TwemproxyStats.TotalConnections twemp)
        (TwemproxyStats.CurrentConnections twemp)
        (int_add (TwemproxyStats.ExpectedAvailable twemp)
                 (ServiceStats.ExpectedAvailable serviceStats))
        (int_add (TwemproxyStats.NotAvailable twemp)
                 (ServiceStats.NotAvailable serviceStats))
        (<[key := serviceStats]> (TwemproxyStats.Services twemp))
  end.

(** What is stored for [key] when its iteration does not panic. *)
Definition stored (stats : gmap string JValue) (config : gmap string Config.t)
    (key : string) : option ServiceStats.t :=
  match serviceStatsOf stats config key with
  | Return o => o
  | Panic _ => None
  end.

(** The snapshot after the iterations for [keys], from [twemp]. *)
Definition snapshotAfter (stats : gmap string JValue)
    (config : gmap string Config.t) (keys : list string)
    (twemp : TwemproxyStats.t) : TwemproxyStats.t :=
  foldl (λ tw key, absorb key (stored stats config key) tw) twemp keys.

(** What the service [key] adds to the top-level [ExpectedAvailable]
    (line 80, reached only when the payload has the key) and to
    [NotAvailable]. *)
Definition expectedOf (stats : gmap string JValue)
    (config : gmap string Config.t) (key : string) : nat :=
  match stats !! key with
  | Some _ => length (Config.Servers (configAt config key))
  | None => 0%nat
  end.

Definition downOf (stats : gmap string JValue)
    (config : gmap string Config.t) (key : string) : nat :=
  match stats !! key with
  | Some (JMap service) =>
      downCount service (Config.Servers (configAt config key))
  | _ => 0%nat
  end.

(** The number of backends the topology declares, over all services. *)
Definition totalBackends (config : gmap string Config.t) : nat :=
  sum_list_with (λ kc, length (Config.Servers kc.2)) (map_to_list config).

(** Slices live in memory: the topology's backends can be counted in an
    [int]. *)
Definition fits (config : gmap string Config.t) : Prop :=
  Z.of_nat (totalBackends config) ≤ int_max.

(** The sum of an integer field over the entries of a map. *)
Definition sumOver {V} (f : V → Z) (m : gmap string V) : Z :=
  map_fold (λ _ x acc, acc + f x) 0 m.

(** The panics of a failed type assertion. *)
Definition conversionPanic (p : panic) : Prop :=
  ∃ dyn want, p = InterfaceConversion dyn want.

(** ** Shapes of payloads *)

Definition hasString (m : gmap string JValue) (k : string) : bool :=
  match m !! k with Some (JString _) => true | _ => false end.

Definition hasFloat64 (m : gmap string JValue) (k : string) : bool :=
  match m !! k with Some (JFloat64 _) => true | _ => false end.

(** The scalar fields read at lines 85-90 and 109-121. *)
Definition serviceFields : list string :=
  ["client_eof"; "client_err"; "client_connections"; "server_ejects";
   "forward_error"; "fragments"].

Definition serverFields : list string :=
  ["server_eof"; "server_err"; "server_timedout"; "server_connections";
   "server_ejected_at"; "requests"; "request_bytes"; "responses";
   "response_bytes"; "in_queue"; "in_queue_bytes"; "out_queue";
   "out_queue_bytes"].

(** The four top-level scalars are there, with the right shape. *)
Definition headerPopulated (stats : gmap string JValue) : bool :=
  hasString stats "service" && hasString stats "source" &&
  hasFloat64 stats "total_connections" && hasFloat64 stats "curr_connections".

(** The backend has a block under its resolved key, with every counter. *)
Definition backendPopulated (service : gmap string JValue) (val : Server.t)
  : bool :=
  match service !! hostOf val with
  | Some (JMap srv) => forallb (hasFloat64 srv) serverFields
  | _ => false
  end.

(** The service has a block with its six counters and a populated block
    for each declared backend. *)
Definition servicePopulated (stats : gmap string JValue)
    (config : gmap string Config.t) (key : string) : bool :=
  match stats !! key with
  | Some (JMap service) =>
      forallb (hasFloat64 service) serviceFields &&
      forallb (backendPopulated service) (Config.Servers (configAt config key))
  | _ => false
  end.

Definition fullyPopulated (stats : gmap string JValue)
    (config : gmap string Config.t) : bool :=
  headerPopulated stats &&
  forallb (servicePopulated stats config) (map_to_list config).*1.

(** The backend's block reports [server_connections ≥ 1]. *)
Definition connected (service : gmap string JValue) (val : Server.t) : bool :=
  match service !! hostOf val with
  | Some (JMap srv) =>
      match srv !! "server_connections" with
      | Some (JFloat64 f) => PrimFloat.leb 1%float f
      | _ => false
      end
  | _ => false
  end.

Definition allConnected (stats : gmap string JValue)
    (config : gmap string Config.t) : bool :=
  forallb (λ kc,
      match stats !! kc.1 with
      | Some (JMap service) => forallb (connected service) (Config.Servers kc.2)
      | _ => true
      end) (map_to_list config).

(** ** Sample topology and payloads *)

Module Sample.
Definition num (z : Z) : JValue := JFloat64 (PrimFloat.of_uint63 (Uint63.of_Z z)).

(** A backend block with every counter set, [server_connections] being
    [conns]. *)
Definition backend (conns : Z) : gmap string JValue :=
  list_to_map [
    ("server_eof", num 0); ("server_err", num 0);
    ("server_timedout", num 0); ("server_connections", num conns);
    ("server_ejected_at", num 0); ("requests", num 7);
    ("request_bytes", num 70); ("responses", num 7);
    ("response_bytes", num 90); ("in_queue", num 0);
    ("in_queue_bytes", num 0); ("out_queue", num 0);
    ("out_queue_bytes", num 0) ].

(** A service block with its six counters and the given backend keys. *)
Definition service (backends : list (string * JValue)) : gmap string JValue :=
  list_to_map ([
    ("client_eof", num 1); ("client_err", num 0);
    ("client_connections", num 2); ("server_ejects", num 0);
    ("forward_error", num 0); ("fragments", num 0) ] ++ backends).

Definition header : list (string * JValue) := [
  ("service", JString "nutcracker"); ("source", JString "host1");
  ("total_connections", num 10); ("curr_connections", num 3) ].

(** [alpha] declares [10.0.0.1] and [10.0.0.2 cache2]; [beta] declares
    three unaliased backends. *)
Definition alpha : Config.t :=
  Config.mk "alpha" "fnv1a_64" "{}" "ketama" true 400 "" true
    [Server.mk "10.0.0.1" ""; Server.mk "10.0.0.2" "cache2"].

Definition beta : Config.t :=
  Config.mk "beta" "fnv1a_64" "{}" "ketama" true 400 "" true
    [Server.mk "10.0.1.1" ""; Server.mk "10.0.1.2" "";
     Server.mk "10.0.1.3" ""].

Definition topology : gmap string Config.t :=
  list_to_map [("alpha", alpha); ("beta", beta)].

Definition alphaOnly : gmap string Config.t :=
  list_to_map [("alpha", alpha)].

(** The payload reports [alpha] with only [cache2], and no [beta]. *)
Definition payload : gmap string JValue :=
  list_to_map (header ++
    [("alpha", JMap (service [("cache2", JMap (backend 5))]))]).

(** The payload reports both backends of [alpha], connected. *)
Definition full : gmap string JValue :=
  list_to_map (header ++
    [("alpha", JMap (service [("10.0.0.1", JMap (backend 2));
                              ("cache2", JMap (backend 5))]))]).

(** The payload reports [cache2] without its [server_eof] counter. *)
Definition partial : gmap string JValue :=
  list_to_map (header ++
    [("alpha", JMap (service
       [("cache2", JMap (delete "server_eof" (backend 5)))]))]).

(** A decoder that knows one document: the bytes ["{}"] decode to the
    empty object, no bytes are a syntax error, anything else decodes to
    [doc]. *)
Definition decoder (doc : gmap string JValue) : Decoder := λ b,
  match b with
  | [] => inl (Error "unexpected end of JSON input")
  | [Byte.x7b; Byte.x7d] => inr ∅
  | _ => inr doc
  end.

Definition bytes : list Byte.byte := [Byte.x7b; Byte.x2e; Byte.x7d].

(** One order in which a range may visit [topology]. *)
Definition order : list string := (map_to_list topology).*1.

Definition cache2 : Server.t := Server.mk "10.0.0.2" "cache2".

(** The snapshot [parseStats] returns for [payload] and [topology]. *)
Definition snapshot : TwemproxyStats.t :=
  match parseStats (json := decoder payload) order bytes topology with
  | Return (twemp, _) => twemp
  | Panic _ => TwemproxyStats.zero
  end.

(** The entries of [snapshot] for [alpha] and for its backend [cache2]. *)
Definition alphaStats : ServiceStats.t :=
  default
    (ServiceStats.mk "" 0%float 0%float 0%float 0%float 0%float 0%float 0 0 ∅)
    (TwemproxyStats.Services snapshot !! "alpha").

Definition cache2Stats : ServerStats.t :=
  default
    (ServerStats.mk "" "" 0%float 0%float 0%float 0%float 0%float 0%float
       0%float 0%float 0%float 0%float 0%float 0%float 0%float)
    (ServiceStats.Servers alphaStats !! "cache2").
End Sample.

(** ** Counts over the whole topology *)

(** The backends declared by the services that have a key in the payload,
    and those among them that are counted as not available. *)
Definition presentBackends (stats : gmap string JValue)
    (config : gmap string Config.t) : nat :=
  sum_list_with
    (λ kc, match stats !! kc.1 with
           | Some _ => length (Config.Servers kc.2)
           | None => 0%nat
           end) (map_to_list config).

Definition downBackends (stats : gmap string JValue)
    (config : gmap string Config.t) : nat :=
  sum_list_with
    (λ kc, match stats !! kc.1 with
           | Some (JMap service) => downCount service (Config.Servers kc.2)
           | _ => 0%nat
           end) (map_to_list config).

(** The four top-level scalars read at lines 63-66. *)
Definition headerFields : list string :=
  ["service"; "source"; "total_connections"; "curr_connections"].

(** ** What a cycle publishes *)

(** The seven gauges set for a server at lines 205-211, by the key of
    their vector, with the field they are set to. *)
Definition serverGauges : list (string * (ServerStats.t → float)) :=
  [("in_queue", ServerStats.InQueue);
   ("in_queue_bytes", ServerStats.InQueueBytes);
   ("err", ServerStats.ServerErr);
   ("eof", ServerStats.ServerEOF);
   ("timed_out", ServerStats.ServerTimedout);
   ("server_connection", ServerStats.ServerConnections);
   ("server_ejected_at", ServerStats.ServerEjectedAt)].

Definition gaugeOf (metric : string) (server : ServerStats.t) : option float :=
  (λ field, field server) <$> (list_to_map serverGauges : gmap _ _) !! metric.

(** The counter of a backend's block that each gauge shows: the gauge's
    field of [ServerStats] is read from it at lines 109-121. *)
Definition gaugeSource : list (string * string) :=
  [("in_queue", "in_queue");
   ("in_queue_bytes", "in_queue_bytes");
   ("err", "server_err");
   ("eof", "server_eof");
   ("timed_out", "server_timedout");
   ("server_connection", "server_connections");
   ("server_ejected_at", "server_ejected_at")].

(** The label values of a server's gauges. *)
Definition labelsOf (hostname serviceName : string) (server : ServerStats.t)
  : list string :=
  [hostname; serviceName; ServerStats.HostAlias server].

(** The servers of a snapshot, each with the name of its service. *)
Definition entriesOf (stats : TwemproxyStats.t)
  : list (string * ServerStats.t) :=
  '(serviceName, service) ← map_to_list (TwemproxyStats.Services stats);
  (λ hs, (serviceName, hs.2)) <$> map_to_list (ServiceStats.Servers service).

(** Lines 205-211 for the servers [entries], in that order. *)
Definition publishEntries (hostname : string)
    (entries : list (string * ServerStats.t)) (g : Gauges.t) : Gauges.t :=
  foldl (λ g e, publishServer hostname e.1 e.2 g) g entries.

(** More sample payloads. *)
Module More.
(** The payload reports [alpha] with no backend. *)
Definition bare : gmap string JValue :=
  list_to_map (Sample.header ++ [("alpha", JMap (Sample.service []))]).

(** The payload with a top-level key that is not a service. *)
Definition noisy : gmap string JValue :=
  <["uptime" := Sample.num 5]> Sample.payload.

(** A stand-in decoder for two documents: the bytes ["{}"] decode to
    [doc'], anything else but no bytes to [doc]. *)
Definition decoder2 (doc doc' : gmap string JValue) : Decoder := λ b,
  match b with
  | [] => inl (Error "unexpected end of JSON input")
  | [Byte.x7b; Byte.x7d] => inr doc'
  | _ => inr doc
  end.

(** The snapshot for the fully reported [alpha]. *)
Definition fullSnapshot : TwemproxyStats.t :=
  match parseStats (json := Sample.decoder Sample.full)
          ["alpha"] Sample.bytes Sample.alphaOnly with
  | Return (twemp, _) => twemp
  | Panic _ => TwemproxyStats.zero
  end.

(** The snapshot for [alpha] reported without backends. *)
Definition bareSnapshot : TwemproxyStats.t :=
  match parseStats (json := Sample.decoder bare)
          ["alpha"] Sample.bytes Sample.alphaOnly with
  | Return (twemp, _) => twemp
  | Panic _ => TwemproxyStats.zero
  end.

Definition five : float := PrimFloat.of_uint63 (Uint63.of_Z 5).

Definition monitor : Monitor.t := Monitor.mk Sample.topology "localhost:22222".

(** The gauges after one tick on the sample payload. *)
Definition published : Gauges.t :=
  publish "host1" Sample.snapshot Gauges.empty.
End More.

(** ** exporter_config.go: [LoadConfig] *)

(** The dynamic types [yaml.v2] stores in an [interface{}]. *)
Inductive ytype :=
  | YTNil | YTBool | YTInt | YTFloat64 | YTString | YTSlice | YTMap.

(** What [yaml.Unmarshal] puts in an [interface{}]: nil, bool, int,
    float64, string, []interface{} or map[interface{}]interface{}.
    [LoadConfig] indexes the inner maps with string constants only, so a
    map is kept by its entries under string keys. *)
#[warnings="-register-all"]
Inductive YValue :=
  | YNil
  | YBool (b : bool)
  | YInt (z : Z)
  | YFloat64 (f : float)
  | YString (s : string)
  | YSlice (l : list YValue)
  | YMap (m : gmap string YValue).

Definition ydyntype (v : option YValue) : ytype :=
  match v with
  | None | Some YNil => YTNil
  | Some (YBool _) => YTBool
  | Some (YInt _) => YTInt
  | Some (YFloat64 _) => YTFloat64
  | Some (YString _) => YTString
  | Some (YSlice _) => YTSlice
  | Some (YMap _) => YTMap
  end.

(** The panics of [LoadConfig]: a failed type assertion and an index out
    of range. *)
Inductive ypanic :=
  | YamlConversion (dyn want : ytype)
  | IndexOutOfRange.

Inductive loaded (A : Type) :=
  | Loaded (a : A)
  | Crashed (p : ypanic).
Arguments Loaded {A} a.
Arguments Crashed {A} p.

#[global] Instance loaded_ret : MRet loaded := λ _ a, Loaded a.
#[global] Instance loaded_bind : MBind loaded := λ _ _ k c,
  match c with
  | Loaded a => k a
  | Crashed p => Crashed p
  end.

Definition yString (v : option YValue) : loaded string :=
  match v with
  | Some (YString s) => Loaded s
  | _ => Crashed (YamlConversion (ydyntype v) YTString)
  end.

Definition yBool (v : option YValue) : loaded bool :=
  match v with
  | Some (YBool b) => Loaded b
  | _ => Crashed (YamlConversion (ydyntype v) YTBool)
  end.

Definition yInt (v : option YValue) : loaded Z :=
  match v with
  | Some (YInt z) => Loaded z
  | _ => Crashed (YamlConversion (ydyntype v) YTInt)
  end.

Definition ySlice (v : option YValue) : loaded (list YValue) :=
  match v with
  | Some (YSlice l) => Loaded l
  | _ => Crashed (YamlConversion (ydyntype v) YTSlice)
  end.

Definition yMap (v : option YValue) : loaded (gmap string YValue) :=
  match v with
  | Some (YMap m) => Loaded m
  | _ => Crashed (YamlConversion (ydyntype v) YTMap)
  end.

(** A [for ... range] loop whose body may crash. *)
Fixpoint rangeL {A S} (body : A → S → loaded S) (l : list A) (s : S)
  : loaded S :=
  match l with
  | [] => Loaded s
  | x :: l' => s' ← body x s; rangeL body l' s'
  end.

(** [p[i]] *)
Definition index {A} (p : list A) (i : nat) : loaded A :=
  match p !! i with
  | Some x => Loaded x
  | None => Crashed IndexOutOfRange
  end.

(** [strings.Split(s, " ")]: the pieces of [s] between its spaces, one
    more than there are spaces. *)
Fixpoint splitSpace (s : string) : list string :=
  match s with
  | EmptyString => [EmptyString]
  | String c s' =>
      if Ascii.eqb c Ascii.Space
      then EmptyString :: splitSpace s'
      else match splitSpace s' with
           | piece :: pieces => String c piece :: pieces
           | [] => [String c EmptyString]
           end
  end.

Definition ErrPathEmpty : error := Error "Config path is empty".
Definition ErrNoServersDetected : error :=
  Error "No servers detected in config".

(** [err.Error()] *)
Definition errorText (err : error) : string :=
  match err with Error msg => msg end.

(** Lines 84-90: a server entry is an address, optionally followed by a
    space and an alias. *)
Definition serverOf (s : string) : loaded Server.t :=
  let p := splitSpace s in
  ip ← index p 0;
  if decide (1 < len p)
  then alias ← index p 1; Loaded (Server.mk ip alias)
  else Loaded (Server.mk ip "").

(** Lines 82-93: one iteration over [servers]; the loop state is
    [c.Servers] and [serversExists]. *)
Definition serverEntryBody (s : YValue) (st : list Server.t * bool)
  : loaded (list Server.t * bool) :=
  text ← yString (Some s);
  server ← serverOf text;
  Loaded (st.1 ++ [server], true).

(** Lines 62-96: one iteration over the keys of [confs]; the loop state
    is [confs] and [serversExists]. *)
Definition configBody (confMap : gmap string YValue) (key : string)
    (st : gmap string Config.t * bool)
  : loaded (gmap string Config.t * bool) :=
  vars ← yMap (confMap !! key);
  let c := configAt st.1 key in
  hash ← yString (vars !! "hash");
  hashTag ← yString (vars !! "hash_tag");
  distribution ← yString (vars !! "distribution");
  autoEjectHosts ← yBool (vars !! "auto_eject_hosts");
  timeout ← yInt (vars !! "timeout");
  redis ← match vars !! "redis" with
          | Some val => yBool (Some val)
          | None => Loaded (Config.Redis c)
          end;
  protocol ← match vars !! "protocol" with
             | Some val => yString (Some val)
             | None => Loaded (Config.Protocol c)
             end;
  servers ← ySlice (vars !! "servers");
  r ← rangeL serverEntryBody servers (Config.Servers c, st.2);
  Loaded (<[key := Config.mk (Config.ConfigName c) hash hashTag distribution
                     autoEjectHosts timeout protocol redis r.1]> st.1,
          r.2).

(** [Config{ConfigName: key}] *)
Definition blankConfig (key : string) : Config.t :=
  Config.mk key "" "" "" false 0 "" false [].

(** Lines 54-58: [confs] after the first loop. *)
Definition initialConfs (confMap : gmap string YValue)
  : gmap string Config.t :=
  map_imap (λ key _, Some (blankConfig key)) confMap.

(** [ioutil.ReadFile] on the file system at hand, and [yaml.Unmarshal]
    into a [map[string]interface{}]. *)
Class FileSystem := ioutil_ReadFile : string → error + list Byte.byte.
Class YamlDecoder :=
  yaml_Unmarshal : list Byte.byte → error + gmap string YValue.

Section LoadConfig.
Context {fs : FileSystem} {yaml : YamlDecoder}.

(** [LoadConfig], lines 38-101. [order] is the order in which the second
    range visits the keys of [confs]; a nil map reads like an empty
    one. *)
Definition LoadConfig (order : list string) (path : string)
  : loaded (gmap string Config.t * option error) :=
  if decide (path = "") then Loaded (∅, Some ErrPathEmpty)
  else
    match ioutil_ReadFile path with
    | inl err =>
        Loaded (∅, Some (Error ("Cannot open: " +:+ path +:+ ". Error: "
                                  +:+ errorText err)))
    | inr confContent =>
        match yaml_Unmarshal confContent with
        | inl err => Loaded (∅, Some err)
        | inr confMap =>
            st ← rangeL (configBody confMap) order
                   (initialConfs confMap, false);
            if negb st.2 then Loaded (∅, Some ErrNoServersDetected)
            else Loaded (st.1, None)
        end
    end.
End LoadConfig.

(** A server entry, as a function of its pieces. *)
Definition parseServer (s : string) : Server.t :=
  match splitSpace s with
  | ip :: alias :: _ => Server.mk ip alias
  | [ip] => Server.mk ip ""
  | [] => Server.mk "" ""
  end.

Fixpoint hasSpace (s : string) : bool :=
  match s with
  | EmptyString => false
  | String c s' => Ascii.eqb c Ascii.Space || hasSpace s'
  end.

(** What the iteration for a service leaves in [confs], read off the
    service's block [vars]. *)
Definition builtFrom (vars : gmap string YValue) (key : string)
    (c : Config.t) : Prop :=
  Config.ConfigName c = key ∧
  vars !! "hash" = Some (YString (Config.Hash c)) ∧
  vars !! "hash_tag" = Some (YString (Config.HashTag c)) ∧
  vars !! "distribution" = Some (YString (Config.Distribution c)) ∧
  vars !! "auto_eject_hosts" = Some (YBool (Config.AutoEjectHosts c)) ∧
  vars !! "timeout" = Some (YInt (Config.Timeout c)) ∧
  (vars !! "redis" = Some (YBool (Config.Redis c)) ∨
   vars !! "redis" = None ∧ Config.Redis c = false) ∧
  (vars !! "protocol" = Some (YString (Config.Protocol c)) ∨
   vars !! "protocol" = None ∧ Config.Protocol c = "") ∧
  ∃ entries,
    vars !! "servers" = Some (YSlice (YString <$> entries)) ∧
    Config.Servers c = parseServer <$> entries.

(** A sample configuration file. *)
Module Nutcracker.
Definition alpha : gmap string YValue :=
  list_to_map [
    ("listen", YString "127.0.0.1:22121");
    ("hash", YString "fnv1a_64"); ("hash_tag", YString "{}");
    ("distribution", YString "ketama");
    ("auto_eject_hosts", YBool true); ("timeout", YInt 400);
    ("redis", YBool true);
    ("servers", YSlice [YString "10.0.0.1:6379:1";
                        YString "10.0.0.2:6379:1 cache2"]) ].

Definition doc : gmap string YValue := list_to_map [("alpha", YMap alpha)].

(** A service block without [hash]. *)
Definition broken : gmap string YValue :=
  list_to_map [("alpha", YMap (delete "hash" alpha))].

(** A file system with one file, and a stand-in decoder for it. *)
Definition files : FileSystem := λ path,
  if decide (path = "nutcracker.yml") then inr [Byte.x61]
  else inl (Error "open: no such file or directory").

Definition decoder (doc : gmap string YValue) : YamlDecoder := λ _, inr doc.

Definition loadedAlpha : Config.t :=
  Config.mk "alpha" "fnv1a_64" "{}" "ketama" true 400 "" true
    [Server.mk "10.0.0.1:6379:1" ""; Server.mk "10.0.0.2:6379:1" "cache2"].
End Nutcracker.

(** The service block has the six fields [LoadConfig] asserts
    unconditionally, with their types. *)
Definition mandatoryPresent (vars : gmap string YValue) : bool :=
  match vars !! "hash", vars !! "hash_tag", vars !! "distribution",
        vars !! "auto_eject_hosts", vars !! "timeout", vars !! "servers" with
  | Some (YString _), Some (YString _), Some (YString _),
    Some (YBool _), Some (YInt _), Some (YSlice _) => true
  | _, _, _, _, _, _ => false
  end.

(** The crashes of a failed type assertion. *)
Definition conversionCrash (p : ypanic) : Prop :=
  ∃ dyn want, p = YamlConversion dyn want.

(** The value under a service name is a block with the mandatory
    fields. *)
Definition serviceWellFormed (v : YValue) : bool :=
  match v with
  | YMap vars => mandatoryPresent vars
  | _ => false
  end.

(** ** Machine integers *)

Lemma wrap_small z : int_ok z → wrap z = z.
Proof.
  unfold int_ok, int_min, int_max, wrap. intros Hz.
  rewrite Z.mod_small; lia.
Qed.

Lemma wrap_ok z : int_ok (wrap z).
Proof.
  unfold int_ok, int_min, int_max, wrap.
  pose proof (Z.mod_pos_bound (z + 2 ^ 63) (2 ^ 64)). lia.
Qed.

Lemma wrap_add_l a b : wrap (wrap a + b) = wrap (a + b).
Proof.
  unfold wrap. f_equal.
  replace ((a + 2 ^ 63) `mod` 2 ^ 64 - 2 ^ 63 + b + 2 ^ 63)
    with ((a + 2 ^ 63) `mod` 2 ^ 64 + b) by lia.
  rewrite Zplus_mod_idemp_l. f_equal. lia.
Qed.

Lemma wrap_add_r a b : wrap (a + wrap b) = wrap (a + b).
Proof. rewrite (Z.add_comm a), wrap_add_l. f_equal. lia. Qed.

Lemma wrap_succ_add n (d : nat) :
  wrap (wrap (n + 1) + Z.of_nat d) = wrap (n + Z.of_nat (S d)).
Proof. rewrite wrap_add_l. f_equal. lia. Qed.

Lemma int_ok_0 : int_ok 0.
Proof. unfold int_ok, int_min, int_max. lia. Qed.

(** ** Comparing floats *)

Lemma SFcompare_antisym x y :
  SFcompare y x = option_map CompOpp (SFcompare x y).
Proof.
  destruct x as [sx|sx| |sx mx ex], y as [sy|sy| |sy my ey]; simpl;
    try reflexivity; try (by destruct sx); try (by destruct sy);
    try (by destruct sx, sy).
  destruct sx, sy; simpl; try reflexivity;
    rewrite (Z.compare_antisym ey ex);
    destruct (ey ?= ex)%Z; simpl; try reflexivity;
    change (Pos.compare_cont Eq my mx) with (my ?= mx)%positive;
    change (Pos.compare_cont Eq mx my) with (mx ?= my)%positive;
    rewrite (Pos.compare_antisym mx my); by destruct (mx ?= my)%positive.
Qed.

(** [y ≤ x] excludes [x < y]. *)
Lemma leb_not_ltb x y : PrimFloat.leb y x = true → PrimFloat.ltb x y = false.
Proof.
  rewrite leb_spec, ltb_spec. unfold SFleb, SFltb.
  rewrite (SFcompare_antisym (Prim2SF x) (Prim2SF y)).
  by destruct (SFcompare (Prim2SF x) (Prim2SF y)) as [[]|].
Qed.

(** ** Returns and panics *)

Lemma bind_Return {A B} (c : outcome A) (k : A → outcome B) b :
  c ≫= k = Return b ↔ ∃ a, c = Return a ∧ k a = Return b.
Proof.
  destruct c as [a|p]; simpl; split.
  - eauto.
  - by intros (a' & [= ->] & ?).
  - done.
  - by intros (? & ? & ?).
Qed.

Lemma assertFloat64_Return v f :
  assertFloat64 v = Return f ↔ v = Some (JFloat64 f).
Proof.
  split; [|by intros ->].
  destruct v as [[]|]; simpl; intros [=]. by subst.
Qed.

Lemma assertString_Return v s :
  assertString v = Return s ↔ v = Some (JString s).
Proof.
  split; [|by intros ->].
  destruct v as [[]|]; simpl; intros [=]. by subst.
Qed.

Lemma assertMap_Return v m : assertMap v = Return m ↔ v = Some (JMap m).
Proof.
  split; [|by intros ->].
  destruct v as [[]|]; simpl; intros [=]. by subst.
Qed.

(** ** The inner loop *)

Lemma serverBody_entry service val st :
  serverBody service val st =
  o ← entryOf service val; Return (applyEntry val o st).
Proof.
  unfold serverBody, entryOf, applyEntry.
  destruct (service !! hostOf val) as [se|]; [|reflexivity].
  destruct (assertMap (Some se)) as [srv|]; [|reflexivity]. simpl.
  destruct (serverStatsOf _ _ srv) as [ss|]; [|reflexivity]. simpl.
  by destruct (PrimFloat.ltb _ _).
Qed.

Lemma inner_loop service servers : ∀ st,
  int_ok (TwemproxyStats.NotAvailable st.1) →
  int_ok (ServiceStats.NotAvailable st.2) →
  rangeM (serverBody service) servers st =
  match firstPanic (entryOf service) servers with
  | Some p => Panic p
  | None =>
      Return
        (TwemproxyStats.setNotAvailable
           (wrap (TwemproxyStats.NotAvailable st.1
                  + Z.of_nat (downCount service servers))) st.1,
         ServiceStats.setNotAvailable
           (wrap (ServiceStats.NotAvailable st.2
                  + Z.of_nat (downCount service servers)))
           (ServiceStats.setServers
              (foldl (emit service) (ServiceStats.Servers st.2) servers)
              st.2))
  end.
Proof.
  induction servers as [|val servers IH]; intros [tw sv] Htw Hsv.
  - simpl in *. rewrite !Z.add_0_r, !wrap_small by done.
    by destruct tw, sv.
  - simpl rangeM. rewrite serverBody_entry. simpl firstPanic.
    destruct (entryOf service val) as [o|p] eqn:Hentry; [|done].
    simpl. rewrite IH.
    + destruct (firstPanic _ servers); [done|].
      unfold downCount, contribution, down, emit. simpl.
      rewrite Hentry. unfold applyEntry.
      destruct tw, sv, o as [ss|]; simpl in *;
        [destruct (PrimFloat.ltb _ _)|]; simpl;
        unfold TwemproxyStats.incNotAvailable, ServiceStats.incNotAvailable,
          TwemproxyStats.setNotAvailable, ServiceStats.setNotAvailable,
          ServiceStats.putServer, ServiceStats.setServers, int_add; simpl;
        rewrite ?wrap_succ_add; reflexivity.
    + unfold applyEntry. destruct (isDown o); [apply wrap_ok | done].
    + unfold applyEntry. destruct (isDown o), o; simpl; done || apply wrap_ok.
Qed.

(** ** The outer loop *)

Lemma serviceStatsOf_spec stats config key :
  serviceStatsOf stats config key =
  match stats !! key with
  | None => Return None
  | Some s =>
      let servers := Config.Servers (configAt config key) in
      service ← assertMap (Some s);
      clientEOF ← assertFloat64 (service !! "client_eof");
      clientErr ← assertFloat64 (service !! "client_err");
      clientConnections ← assertFloat64 (service !! "client_connections");
      serverEjects ← assertFloat64 (service !! "server_ejects");
      forwardError ← assertFloat64 (service !! "forward_error");
      fragments ← assertFloat64 (service !! "fragments");
      match firstPanic (entryOf service) servers with
      | Some p => Panic p
      | None =>
          Return (Some
            (ServiceStats.mk key clientEOF clientErr clientConnections
               serverEjects forwardError fragments (len servers)
               (wrap (Z.of_nat (downCount service servers)))
               (foldl (emit service) ∅ servers)))
      end
  end.
Proof.
  unfold serviceStatsOf, serviceBody.
  destruct (stats !! key) as [s|]; [|reflexivity].
  cbv zeta.
  destruct (assertMap (Some s)) as [service|]; [|reflexivity]. cbn [mbind outcome_bind].
  repeat (match goal with
          | |- context [assertFloat64 ?v] =>
              destruct (assertFloat64 v); [|reflexivity]; cbn [mbind outcome_bind]
          end).
  rewrite inner_loop by apply int_ok_0.
  destruct (firstPanic _ _); [reflexivity|].
  cbn. by rewrite lookup_insert_eq.
Qed.

Lemma serviceBody_absorb stats config key tw :
  int_ok (TwemproxyStats.NotAvailable tw) →
  serviceBody stats config key tw =
  o ← serviceStatsOf stats config key; Return (absorb key o tw).
Proof.
  intros Htw. rewrite serviceStatsOf_spec. unfold serviceBody.
  destruct (stats !! key) as [s|]; [|reflexivity].
  cbv zeta.
  destruct (assertMap (Some s)) as [service|]; [|reflexivity]. cbn [mbind outcome_bind].
  repeat (match goal with
          | |- context [assertFloat64 ?v] =>
              destruct (assertFloat64 v); [|reflexivity]; cbn [mbind outcome_bind]
          end).
  rewrite inner_loop by (done || apply int_ok_0).
  destruct (firstPanic _ _); [reflexivity|].
  destruct tw. cbn. unfold int_add. by rewrite wrap_add_r.
Qed.

Lemma absorb_ok key o tw :
  int_ok (TwemproxyStats.NotAvailable tw) →
  int_ok (TwemproxyStats.NotAvailable (absorb key o tw)).
Proof. destruct o; [intros _; apply wrap_ok | done]. Qed.

Lemma outer_loop stats config keys : ∀ tw,
  int_ok (TwemproxyStats.NotAvailable tw) →
  rangeM (serviceBody stats config) keys tw =
  match firstPanic (serviceStatsOf stats config) keys with
  | Some p => Panic p
  | None => Return (snapshotAfter stats config keys tw)
  end.
Proof.
  induction keys as [|key keys IH]; intros tw Htw; [reflexivity|].
  simpl rangeM. rewrite serviceBody_absorb by done. simpl firstPanic.
  unfold snapshotAfter. simpl foldl. unfold stored at 2.
  destruct (serviceStatsOf stats config key) as [o|]; [|reflexivity].
  cbn [mbind outcome_bind]. by apply IH, absorb_ok.
Qed.

Lemma parseTree_spec order stats config :
  parseTree order stats config =
  service ← assertString (stats !! "service");
  source ← assertString (stats !! "source");
  totalConnections ← assertFloat64 (stats !! "total_connections");
  currentConnections ← assertFloat64 (stats !! "curr_connections");
  match firstPanic (serviceStatsOf stats config) order with
  | Some p => Panic p
  | None =>
      Return (snapshotAfter stats config order
                (TwemproxyStats.mk service source totalConnections
                   currentConnections 0 0 ∅))
  end.
Proof.
  unfold parseTree.
  destruct (assertString (stats !! "service")); [|reflexivity].
  destruct (assertString (stats !! "source")); [|reflexivity].
  destruct (assertFloat64 (stats !! "total_connections")); [|reflexivity].
  destruct (assertFloat64 (stats !! "curr_connections")); [|reflexivity].
  cbn [mbind outcome_bind]. by rewrite outer_loop by apply int_ok_0.
Qed.

(** *** Which iteration panics *)

Lemma firstPanic_None {A B} (f : A → outcome B) l :
  firstPanic f l = None ↔ Forall (λ x, ∃ b, f x = Return b) l.
Proof.
  induction l as [|x l IH]; simpl.
  - split; [constructor | done].
  - destruct (f x) as [b|p] eqn:Hx.
    + rewrite IH. split.
      * intros Hl. constructor; eauto.
      * by inversion 1.
    + split; [done|]. inversion 1 as [|?? [b Hb]]. congruence.
Qed.

Lemma firstPanic_Some_inv {A B} (f : A → outcome B) l p :
  firstPanic f l = Some p → ∃ x, x ∈ l ∧ f x = Panic p.
Proof.
  induction l as [|x l IH]; simpl; [done|].
  destruct (f x) as [b|p'] eqn:Hx.
  - intros (y & ? & ?)%IH. exists y. split; [by right | done].
  - intros [= ->]. exists x. split; [by left | done].
Qed.

(** *** What is stored for a service *)

Lemma stored_Some stats config key sv :
  stored stats config key = Some sv →
  ∃ service,
    stats !! key = Some (JMap service) ∧
    firstPanic (entryOf service) (Config.Servers (configAt config key)) = None ∧
    ServiceStats.Name sv = key ∧
    ServiceStats.ExpectedAvailable sv
      = len (Config.Servers (configAt config key)) ∧
    ServiceStats.NotAvailable sv
      = wrap (Z.of_nat
                (downCount service (Config.Servers (configAt config key)))) ∧
    ServiceStats.Servers sv
      = foldl (emit service) ∅ (Config.Servers (configAt config key)).
Proof.
  unfold stored. rewrite serviceStatsOf_spec.
  destruct (stats !! key) as [s|]; [|done]. cbv zeta.
  destruct (assertMap (Some s)) as [service|] eqn:Hs; [|done].
  apply assertMap_Return in Hs as [= ->]. cbn [mbind outcome_bind].
  repeat (match goal with
          | |- context [assertFloat64 ?v] =>
              destruct (assertFloat64 v); [|done]; cbn [mbind outcome_bind]
          end).
  destruct (firstPanic _ _) eqn:Hfirst; [done|].
  intros [= <-]. by exists service.
Qed.

Lemma serviceStatsOf_Return_None stats config key :
  serviceStatsOf stats config key = Return None ↔ stats !! key = None.
Proof.
  rewrite serviceStatsOf_spec. split; [|by intros ->].
  destruct (stats !! key) as [s|]; [|done]. cbv zeta.
  destruct (assertMap (Some s)) as [service|]; [|done].
  cbn [mbind outcome_bind].
  repeat (match goal with
          | |- context [assertFloat64 ?v] =>
              destruct (assertFloat64 v); [|done]; cbn [mbind outcome_bind]
          end).
  by destruct (firstPanic _ _).
Qed.

Lemma stored_absent stats config key :
  stats !! key = None → stored stats config key = None.
Proof.
  intros Hkey. unfold stored.
  by rewrite (proj2 (serviceStatsOf_Return_None stats config key) Hkey).
Qed.

(** *** The snapshot after the loop *)

Lemma snapshot_services stats config keys : ∀ tw k,
  TwemproxyStats.Services (snapshotAfter stats config keys tw) !! k =
  match (if decide (k ∈ keys) then stored stats config k else None) with
  | Some sv => Some sv
  | None => TwemproxyStats.Services tw !! k
  end.
Proof.
  induction keys as [|key keys IH]; intros tw k.
  - unfold snapshotAfter. cbn [foldl].
    case_decide as Hin; [by apply not_elem_of_nil in Hin | done].
  - unfold snapshotAfter in *. simpl foldl. rewrite IH.
    destruct (decide (k ∈ keys)) as [Hin|Hin].
    + rewrite decide_True by by right.
      destruct (stored stats config k) as [sv|] eqn:Hk; [done|].
      destruct (stored stats config key) as [sv'|] eqn:Hkey; [|done].
      simpl. rewrite lookup_insert_ne; [done|]. congruence.
    + destruct (decide (k = key)) as [->|Hne].
      * rewrite decide_True by by left.
        destruct (stored stats config key) as [sv'|]; [|done].
        simpl. by rewrite lookup_insert_eq.
      * rewrite decide_False by (rewrite elem_of_cons; tauto).
        destruct (stored stats config key) as [sv'|]; [|done].
        simpl. by rewrite lookup_insert_ne.
Qed.

(** *** Counting *)

Lemma contribution_le_1 service val : (contribution service val ≤ 1)%nat.
Proof. unfold contribution. destruct (down service val); lia. Qed.

Lemma downCount_le service servers :
  (downCount service servers ≤ length servers)%nat.
Proof.
  unfold downCount. induction servers as [|val servers IH]; simpl; [lia|].
  pose proof (contribution_le_1 service val). lia.
Qed.

Lemma downOf_le_expectedOf stats config key :
  (downOf stats config key ≤ expectedOf stats config key)%nat.
Proof.
  unfold downOf, expectedOf. destruct (stats !! key) as [[]|]; try lia.
  apply downCount_le.
Qed.

Lemma expectedOf_le_declared stats config key :
  (expectedOf stats config key
   ≤ length (Config.Servers (configAt config key)))%nat.
Proof. unfold expectedOf. destruct (stats !! key); lia. Qed.

Lemma sum_list_with_le {A} (f g : A → nat) l :
  (∀ x, x ∈ l → (f x ≤ g x)%nat) →
  (sum_list_with f l ≤ sum_list_with g l)%nat.
Proof.
  induction l as [|x l IH]; simpl; intros Hle; [lia|].
  pose proof (Hle x (list_elem_of_here _ _)).
  assert (sum_list_with f l ≤ sum_list_with g l)%nat.
  { apply IH. intros y Hy. apply Hle. by right. }
  lia.
Qed.

Lemma sum_list_with_eq {A} (f g : A → nat) l :
  (∀ x, x ∈ l → f x = g x) → sum_list_with f l = sum_list_with g l.
Proof.
  induction l as [|x l IH]; simpl; intros Heq; [done|].
  rewrite (Heq x) by left. f_equal. apply IH. intros y Hy. apply Heq.
  by right.
Qed.

Lemma sum_list_with_fmap {A B} (f : B → nat) (h : A → B) l :
  sum_list_with f (h <$> l) = sum_list_with (f ∘ h) l.
Proof. induction l as [|x l IH]; csimpl; [done | by rewrite IH]. Qed.

Lemma filter_ne_notin (key : string) (l : list string) :
  key ∉ l → filter (λ k, k ≠ key) l = l.
Proof.
  induction l as [|k l IH]; [done|].
  intros [Hne Hl]%not_elem_of_cons.
  rewrite filter_cons, decide_True by done. by rewrite IH.
Qed.

Lemma sum_list_with_split (g : string → nat) key order :
  key ∈ order → NoDup order →
  sum_list_with g order
  = (g key + sum_list_with g (filter (λ k, k ≠ key) order))%nat.
Proof.
  induction order as [|k order IH]; intros Hkey Hnodup.
  - by apply not_elem_of_nil in Hkey.
  - apply NoDup_cons in Hnodup as [Hk Hnodup]. rewrite filter_cons.
    destruct (decide (k = key)) as [->|Hne].
    + rewrite decide_False by (intros Hn; by apply Hn).
      by rewrite filter_ne_notin.
    + rewrite decide_True by done. simpl.
      apply elem_of_cons in Hkey as [->|Hkey]; [done|].
      rewrite IH by done. lia.
Qed.

(** A range over the topology sums to [totalBackends]. *)
Lemma sum_declared config order :
  rangeOrder config order →
  sum_list_with (λ k, length (Config.Servers (configAt config k))) order
  = totalBackends config.
Proof.
  unfold rangeOrder, totalBackends. intros ->.
  rewrite sum_list_with_fmap. apply sum_list_with_eq.
  intros [k c] Hkc%elem_of_map_to_list. simpl.
  unfold configAt. by rewrite Hkc.
Qed.

Lemma rangeOrder_NoDup {V} (m : gmap string V) order :
  rangeOrder m order → NoDup order.
Proof. intros ->. apply NoDup_fst_map_to_list. Qed.

Lemma rangeOrder_elem_of {V} (m : gmap string V) order k :
  rangeOrder m order → k ∈ order ↔ is_Some (m !! k).
Proof.
  intros ->. rewrite list_elem_of_fmap. split.
  - intros ([k' v] & -> & Hkv%elem_of_map_to_list). eauto.
  - intros [v Hv]. exists (k, v). by rewrite elem_of_map_to_list.
Qed.

Lemma declared_le_total config order key :
  rangeOrder config order → key ∈ order →
  (length (Config.Servers (configAt config key)) ≤ totalBackends config)%nat.
Proof.
  intros Horder Hkey. rewrite <- (sum_declared config order Horder).
  by apply (sum_list_with_in key
              (λ k, length (Config.Servers (configAt config k)))).
Qed.

Lemma snapshot_counts stats config keys :
  firstPanic (serviceStatsOf stats config) keys = None →
  ∀ tw,
    int_ok (TwemproxyStats.ExpectedAvailable tw) →
    int_ok (TwemproxyStats.NotAvailable tw) →
    let tw' := snapshotAfter stats config keys tw in
    TwemproxyStats.ExpectedAvailable tw'
      = wrap (TwemproxyStats.ExpectedAvailable tw
              + Z.of_nat (sum_list_with (expectedOf stats config) keys)) ∧
    TwemproxyStats.NotAvailable tw'
      = wrap (TwemproxyStats.NotAvailable tw
              + Z.of_nat (sum_list_with (downOf stats config) keys)).
Proof.
  induction keys as [|key keys IH]; intros Hfirst tw Hea Hna.
  - simpl. by rewrite !Z.add_0_r, !wrap_small.
  - simpl in Hfirst.
    destruct (serviceStatsOf stats config key) as [o|] eqn:Hkey; [|done].
    unfold snapshotAfter in *. cbn [foldl].
    assert (stored stats config key = o) as Hstored
      by (unfold stored; by rewrite Hkey).
    rewrite Hstored. destruct o as [sv|].
    + destruct (stored_Some _ _ _ _ Hstored)
        as (service & Hs & _ & _ & Hexp & Hdown & _).
      destruct (IH Hfirst (absorb key (Some sv) tw)) as [-> ->];
        [apply wrap_ok | apply wrap_ok |].
      simpl. unfold expectedOf at 2, downOf at 2. rewrite Hs, Hexp, Hdown.
      unfold int_add, len. rewrite wrap_add_r, !wrap_add_l.
      split; f_equal; lia.
    + apply serviceStatsOf_Return_None in Hkey.
      change (absorb key None tw) with tw.
      destruct (IH Hfirst tw Hea Hna) as [-> ->].
      simpl. unfold expectedOf at 2, downOf at 2. by rewrite Hkey.
Qed.

Lemma sumOver_insert {V} (f : V → Z) (m : gmap string V) k x :
  m !! k = None → sumOver f (<[k := x]> m) = sumOver f m + f x.
Proof.
  intros Hk. unfold sumOver. rewrite map_fold_insert_L; [done| |done].
  intros. lia.
Qed.

Lemma services_sum stats config (f : ServiceStats.t → Z) (g : string → nat)
    keys :
  (∀ k sv, k ∈ keys → stored stats config k = Some sv → f sv = Z.of_nat (g k)) →
  (∀ k, k ∈ keys → stored stats config k = None → g k = 0%nat) →
  NoDup keys →
  ∀ tw,
    (∀ k, k ∈ keys → TwemproxyStats.Services tw !! k = None) →
    sumOver f (TwemproxyStats.Services (snapshotAfter stats config keys tw))
    = sumOver f (TwemproxyStats.Services tw)
      + Z.of_nat (sum_list_with g keys).
Proof.
  induction keys as [|key keys IH]; intros Hsome Hnone Hnodup tw Hfresh.
  - simpl. lia.
  - apply NoDup_cons in Hnodup as [Hkey Hnodup].
    unfold snapshotAfter in *. cbn [foldl].
    rewrite IH; [| |by auto using list_elem_of_further|done|].
    + destruct (stored stats config key) as [sv|] eqn:Hstored; simpl.
      * rewrite sumOver_insert by (apply Hfresh; left).
        rewrite (Hsome key sv) by (done || left). lia.
      * rewrite (Hnone key) by (done || left). lia.
    + intros k sv Hk. apply Hsome. by right.
    + intros k Hk. destruct (stored stats config key); simpl.
      * rewrite lookup_insert_ne by (intros ->; done).
        apply Hfresh. by right.
      * apply Hfresh. by right.
Qed.

(** ** The translator *)

Section translator.
Context {json : Decoder}.

Lemma parseStats_Return order content config tw e :
  parseStats order content config = Return (tw, e) →
  (∃ err, json_Unmarshal content = inl err ∧
          tw = TwemproxyStats.zero ∧ e = Some err) ∨
  (∃ stats, json_Unmarshal content = inr stats ∧ e = None ∧
            parseTree order stats config = Return tw).
Proof.
  unfold parseStats. destruct (json_Unmarshal content) as [err|stats].
  - intros [= <- <-]. left. eauto.
  - destruct (parseTree order stats config) as [tw'|] eqn:Htree; [|done].
    intros [= <- <-]. right. eauto.
Qed.
End translator.

Lemma parseTree_Return order stats config tw :
  parseTree order stats config = Return tw →
  firstPanic (serviceStatsOf stats config) order = None ∧
  ∃ service source totalConnections currentConnections,
    stats !! "service" = Some (JString service) ∧
    stats !! "source" = Some (JString source) ∧
    stats !! "total_connections" = Some (JFloat64 totalConnections) ∧
    stats !! "curr_connections" = Some (JFloat64 currentConnections) ∧
    tw = snapshotAfter stats config order
           (TwemproxyStats.mk service source totalConnections
              currentConnections 0 0 ∅).
Proof.
  rewrite parseTree_spec.
  intros (service & Hservice%assertString_Return & Htw)%bind_Return.
  apply bind_Return in Htw as (source & Hsource%assertString_Return & Htw).
  apply bind_Return in Htw as (total & Htotal%assertFloat64_Return & Htw).
  apply bind_Return in Htw as (current & Hcurrent%assertFloat64_Return & Htw).
  destruct (firstPanic _ order); [done|]. injection Htw as <-.
  split; [done|]. by exists service, source, total, current.
Qed.

(** What a service that was stored holds, when the topology fits an
    [int]. *)
Lemma stored_counts stats config order key sv :
  rangeOrder config order → fits config → key ∈ order →
  stored stats config key = Some sv →
  ServiceStats.ExpectedAvailable sv = Z.of_nat (expectedOf stats config key) ∧
  ServiceStats.NotAvailable sv = Z.of_nat (downOf stats config key).
Proof.
  intros Horder Hfits Hkey Hstored.
  destruct (stored_Some _ _ _ _ Hstored)
    as (service & Hs & _ & _ & Hexp & Hdown & _).
  unfold expectedOf, downOf. rewrite Hs, Hexp, Hdown. split; [done|].
  apply wrap_small.
  pose proof (downCount_le service (Config.Servers (configAt config key))).
  pose proof (declared_le_total config order key Horder Hkey).
  unfold fits, int_max in Hfits. unfold int_ok, int_min, int_max. lia.
Qed.

(** The counters and the [Services] map of a returned snapshot. *)
Lemma snapshot_facts order stats config tw :
  rangeOrder config order → fits config →
  parseTree order stats config = Return tw →
  firstPanic (serviceStatsOf stats config) order = None ∧
  TwemproxyStats.ExpectedAvailable tw
    = Z.of_nat (sum_list_with (expectedOf stats config) order) ∧
  TwemproxyStats.NotAvailable tw
    = Z.of_nat (sum_list_with (downOf stats config) order) ∧
  (∀ k, TwemproxyStats.Services tw !! k
        = if decide (k ∈ order) then stored stats config k else None) ∧
  sumOver ServiceStats.ExpectedAvailable (TwemproxyStats.Services tw)
    = TwemproxyStats.ExpectedAvailable tw ∧
  sumOver ServiceStats.NotAvailable (TwemproxyStats.Services tw)
    = TwemproxyStats.NotAvailable tw.
Proof.
  intros Horder Hfits (Hfirst & sv & so & tc & cc & _ & _ & _ & _ & ->)%parseTree_Return.
  set (tw0 := TwemproxyStats.mk sv so tc cc 0 0 ∅).
  destruct (snapshot_counts stats config order Hfirst tw0) as [Hexp Hdown];
    [apply int_ok_0 | apply int_ok_0 |].
  simpl in Hexp, Hdown.
  assert ((sum_list_with (downOf stats config) order
           ≤ sum_list_with (expectedOf stats config) order)%nat) as Hle1
    by (apply sum_list_with_le; intros; apply downOf_le_expectedOf).
  assert ((sum_list_with (expectedOf stats config) order
           ≤ totalBackends config)%nat) as Hle2.
  { rewrite <- (sum_declared config order Horder).
    apply sum_list_with_le. intros. apply expectedOf_le_declared. }
  rewrite wrap_small in Hexp, Hdown
    by (unfold fits, int_max in Hfits; unfold int_ok, int_min, int_max; lia).
  assert (∀ k, k ∈ order → stored stats config k = None → stats !! k = None)
    as Habsent.
  { intros k Hk Hstored. apply firstPanic_None in Hfirst.
    rewrite Forall_forall in Hfirst. destruct (Hfirst k Hk) as [o Ho].
    unfold stored in Hstored. rewrite Ho in Hstored. subst o.
    by apply serviceStatsOf_Return_None in Ho. }
  split_and!; try done.
  - intros k. rewrite snapshot_services. simpl. rewrite lookup_empty.
    by destruct (if decide (k ∈ order) then _ else _).
  - rewrite Hexp, services_sum with (g := expectedOf stats config);
      [done | | |by eapply rangeOrder_NoDup|done].
    + intros k sv' Hk Hstored.
      by destruct (stored_counts _ _ _ _ _ Horder Hfits Hk Hstored).
    + intros k Hk Hstored. unfold expectedOf. by rewrite Habsent.
  - rewrite Hdown, services_sum with (g := downOf stats config);
      [done | | |by eapply rangeOrder_NoDup|done].
    + intros k sv' Hk Hstored.
      by destruct (stored_counts _ _ _ _ _ Horder Hfits Hk Hstored).
    + intros k Hk Hstored. unfold downOf. by rewrite Habsent.
Qed.

(** ** Populated payloads *)

Lemma hasFloat64_true m k :
  hasFloat64 m k = true ↔ ∃ f, m !! k = Some (JFloat64 f).
Proof.
  unfold hasFloat64. split.
  - destruct (m !! k) as [[]|]; try done. eauto.
  - by intros [f ->].
Qed.

Lemma hasString_true m k :
  hasString m k = true ↔ ∃ x, m !! k = Some (JString x).
Proof.
  unfold hasString. split.
  - destruct (m !! k) as [[]|]; try done. eauto.
  - by intros [f ->].
Qed.

Lemma serverStatsOf_Return host hostAlias srv ss :
  serverStatsOf host hostAlias srv = Return ss →
  ServerStats.Host ss = host ∧ ServerStats.HostAlias ss = hostAlias ∧
  srv !! "server_connections"
    = Some (JFloat64 (ServerStats.ServerConnections ss)) ∧
  forallb (hasFloat64 srv) serverFields = true.
Proof.
  unfold serverStatsOf. intros Hss.
  repeat (apply bind_Return in Hss as (? & ?%assertFloat64_Return & Hss)).
  injection Hss as <-. cbn [forallb serverFields]. unfold hasFloat64.
  repeat match goal with H : _ !! _ = Some _ |- _ => rewrite H; clear H end.
  done.
Qed.

Lemma serverStatsOf_populated host hostAlias srv :
  forallb (hasFloat64 srv) serverFields = true →
  ∃ ss, serverStatsOf host hostAlias srv = Return ss.
Proof.
  cbn [forallb serverFields]. rewrite !andb_true_iff, !hasFloat64_true.
  intros Hfields. unfold serverStatsOf.
  repeat match goal with
         | H : _ ∧ _ |- _ => destruct H
         | H : ∃ _, _ |- _ => destruct H as [? ->]
         end.
  cbn. eauto.
Qed.

Lemma entryOf_populated service val :
  backendPopulated service val = true →
  ∃ ss srv, entryOf service val = Return (Some ss) ∧
       service !! hostOf val = Some (JMap srv) ∧
       srv !! "server_connections"
         = Some (JFloat64 (ServerStats.ServerConnections ss)).
Proof.
  unfold backendPopulated, entryOf.
  destruct (service !! hostOf val) as [[| | | | |srv]|]; try done.
  intros Hsrv.
  destruct (serverStatsOf_populated (hostOf val) (Server.IP val) srv Hsrv)
    as [ss Hss].
  exists ss, srv. cbn. rewrite Hss.
  by destruct (serverStatsOf_Return _ _ _ _ Hss) as (_ & _ & ? & _).
Qed.

Lemma serviceStatsOf_populated stats config key :
  servicePopulated stats config key = true →
  ∃ sv, serviceStatsOf stats config key = Return (Some sv).
Proof.
  unfold servicePopulated. rewrite serviceStatsOf_spec.
  destruct (stats !! key) as [[| | | | |service]|]; try done.
  rewrite andb_true_iff. intros [Hfields Hservers].
  cbv zeta. cbn [assertMap mbind outcome_bind].
  assert (firstPanic (entryOf service)
            (Config.Servers (configAt config key)) = None) as ->.
  { apply firstPanic_None, Forall_forall. intros val Hval.
    rewrite forallb_forall in Hservers.
    destruct (entryOf_populated service val) as (ss & _ & -> & _); [|eauto].
    by apply Hservers, list_elem_of_In. }
  revert Hfields. cbn [forallb serviceFields].
  rewrite !andb_true_iff, !hasFloat64_true. intros Hfields.
  repeat match goal with
         | H : _ ∧ _ |- _ => destruct H
         | H : ∃ _, _ |- _ => destruct H as [? ->]
         end.
  cbn. eauto.
Qed.

Lemma parseTree_populated order stats config :
  rangeOrder config order → fullyPopulated stats config = true →
  ∃ tw, parseTree order stats config = Return tw.
Proof.
  intros Horder [Hheader Hservices]%andb_true_iff. rewrite parseTree_spec.
  assert (firstPanic (serviceStatsOf stats config) order = None) as ->.
  { apply firstPanic_None, Forall_forall. intros key Hkey.
    destruct (serviceStatsOf_populated stats config key) as [sv ->]; [|eauto].
    rewrite forallb_forall in Hservices. apply Hservices, list_elem_of_In.
    by rewrite <- Horder. }
  revert Hheader. unfold headerPopulated.
  rewrite !andb_true_iff, !hasFloat64_true, !hasString_true.
  intros Hheader.
  repeat match goal with
         | H : _ ∧ _ |- _ => destruct H
         | H : ∃ _, _ |- _ => destruct H as [? ->]
         end.
  cbn. eauto.
Qed.

Lemma connected_not_down service val :
  backendPopulated service val = true → connected service val = true →
  contribution service val = 0%nat.
Proof.
  intros (ss & srv & Hentry & Hsrv & Hconn)%entryOf_populated.
  unfold connected, contribution, down. rewrite Hsrv, Hconn, Hentry. simpl.
  by intros ->%leb_not_ltb.
Qed.

(** ** The entries of a service *)

Lemma entryOf_Some service val ss :
  entryOf service val = Return (Some ss) →
  ∃ srv,
    service !! hostOf val = Some (JMap srv) ∧
    ServerStats.Host ss = hostOf val ∧
    ServerStats.HostAlias ss = Server.IP val ∧
    srv !! "server_connections"
      = Some (JFloat64 (ServerStats.ServerConnections ss)) ∧
    forallb (hasFloat64 srv) serverFields = true.
Proof.
  unfold entryOf. destruct (service !! hostOf val) as [se|]; [|done].
  intros (srv & [= ->]%assertMap_Return & Hss)%bind_Return.
  apply bind_Return in Hss as (ss' & Hss & [= ->]).
  exists srv. split; [done|]. by apply serverStatsOf_Return in Hss.
Qed.

Lemma entryOf_None service val :
  entryOf service val = Return None ↔ service !! hostOf val = None.
Proof.
  unfold entryOf. split; [|by intros ->].
  destruct (service !! hostOf val) as [se|]; [|done].
  intros (srv & _ & Hss)%bind_Return.
  by apply bind_Return in Hss as (ss' & _ & [=]).
Qed.

Lemma emitted_lookup service servers : ∀ M h ss,
  foldl (emit service) M servers !! h = Some ss →
  M !! h = Some ss ∨
  ∃ val, val ∈ servers ∧ hostOf val = h ∧
         entryOf service val = Return (Some ss).
Proof.
  induction servers as [|val servers IH]; intros M h ss; simpl; [by left|].
  intros [Hemit | (val' & ? & ? & ?)]%IH.
  - unfold emit in Hemit.
    destruct (entryOf service val) as [[ss'|]|] eqn:Hentry; [|by left..].
    apply lookup_insert_Some in Hemit as [[<- <-] | [_ ?]]; [|by left].
    right. exists val. split; [by left | done].
  - right. exists val'. split; [by right | done].
Qed.

Lemma emitted_mono service servers : ∀ M h,
  is_Some (M !! h) → is_Some (foldl (emit service) M servers !! h).
Proof.
  induction servers as [|val servers IH]; intros M h HM; simpl; [done|].
  apply IH. unfold emit. destruct (entryOf service val) as [[ss'|]|]; [|done..].
  rewrite lookup_insert_is_Some. destruct (decide (hostOf val = h)); auto.
Qed.

Lemma emitted_present service servers : ∀ M val ss,
  val ∈ servers → entryOf service val = Return (Some ss) →
  is_Some (foldl (emit service) M servers !! hostOf val).
Proof.
  induction servers as [|val' servers IH]; intros M val ss Hval Hentry; simpl.
  - by apply not_elem_of_nil in Hval.
  - apply elem_of_cons in Hval as [<- | Hval]; [|by eapply IH].
    apply emitted_mono. unfold emit. rewrite Hentry.
    rewrite lookup_insert_eq. eauto.
Qed.

(** A stored entry was emitted by a declared backend with that key. *)
Lemma stored_entry stats config key sv h ss :
  stored stats config key = Some sv →
  ServiceStats.Servers sv !! h = Some ss →
  ∃ service val,
    stats !! key = Some (JMap service) ∧
    val ∈ Config.Servers (configAt config key) ∧ hostOf val = h ∧
    entryOf service val = Return (Some ss).
Proof.
  intros (service & Hs & _ & _ & _ & _ & ->)%stored_Some Hss.
  apply emitted_lookup in Hss as [Hss | (val & ? & ? & ?)].
  - by rewrite lookup_empty in Hss.
  - by exists service, val.
Qed.

(** In a returned snapshot, the services stored are those the range
    visited and found in the payload. *)
Lemma returned_service order stats config tw key service :
  rangeOrder config order →
  parseTree order stats config = Return tw →
  is_Some (config !! key) → stats !! key = Some (JMap service) →
  ∃ sv, TwemproxyStats.Services tw !! key = Some sv ∧
        stored stats config key = Some sv.
Proof.
  intros Horder (Hfirst & sv & so & tc & cc & _ & _ & _ & _ & ->)%parseTree_Return
    Hkey Hs.
  apply (rangeOrder_elem_of config order key Horder) in Hkey.
  rewrite snapshot_services, decide_True by done.
  apply firstPanic_None in Hfirst. rewrite Forall_forall in Hfirst.
  destruct (Hfirst key Hkey) as [[sv'|] Ho].
  - exists sv'. unfold stored. by rewrite Ho.
  - apply serviceStatsOf_Return_None in Ho. congruence.
Qed.

Lemma returned_service_inv order stats config tw key sv :
  parseTree order stats config = Return tw →
  TwemproxyStats.Services tw !! key = Some sv →
  key ∈ order ∧ stored stats config key = Some sv.
Proof.
  intros (Hfirst & ? & ? & ? & ? & _ & _ & _ & _ & ->)%parseTree_Return.
  rewrite snapshot_services. simpl. rewrite lookup_empty.
  case_decide; [|done]. by destruct (stored stats config key).
Qed.

(** ** Panics *)

Lemma bind_Panic {A B} (c : outcome A) (k : A → outcome B) p :
  c ≫= k = Panic p → c = Panic p ∨ ∃ a, c = Return a ∧ k a = Panic p.
Proof. destruct c as [a|p']; simpl; [eauto | intros [= ->]; by left]. Qed.

Lemma assertFloat64_Panic v p : assertFloat64 v = Panic p → conversionPanic p.
Proof.
  unfold conversionPanic. destruct v as [[]|]; simpl; intros [=]; eauto.
Qed.

Lemma assertString_Panic v p : assertString v = Panic p → conversionPanic p.
Proof.
  unfold conversionPanic. destruct v as [[]|]; simpl; intros [=]; eauto.
Qed.

Lemma assertMap_Panic v p : assertMap v = Panic p → conversionPanic p.
Proof.
  unfold conversionPanic. destruct v as [[]|]; simpl; intros [=]; eauto.
Qed.

Ltac panic_steps H :=
  repeat (apply bind_Panic in H as [H | (? & _ & H)];
          [by (apply assertFloat64_Panic in H)
           || by (apply assertString_Panic in H)
           || by (apply assertMap_Panic in H)|]).

Lemma serverStatsOf_Panic host hostAlias srv p :
  serverStatsOf host hostAlias srv = Panic p → conversionPanic p.
Proof. unfold serverStatsOf. intros Hp. panic_steps Hp. done. Qed.

Lemma entryOf_Panic service val p :
  entryOf service val = Panic p → conversionPanic p.
Proof.
  unfold entryOf. destruct (service !! hostOf val) as [se|]; [|done].
  intros Hp. panic_steps Hp.
  apply bind_Panic in Hp as [Hp | (? & _ & Hp)]; [|done].
  by apply serverStatsOf_Panic in Hp.
Qed.

Lemma serviceStatsOf_Panic stats config key p :
  serviceStatsOf stats config key = Panic p → conversionPanic p.
Proof.
  rewrite serviceStatsOf_spec. destruct (stats !! key) as [s|]; [|done].
  cbv zeta. intros Hp. panic_steps Hp.
  destruct (firstPanic _ _) as [p'|] eqn:Hfirst; [|done].
  injection Hp as ->.
  apply firstPanic_Some_inv in Hfirst as (val & _ & Hval).
  by apply entryOf_Panic in Hval.
Qed.

Lemma parseTree_Panic order stats config p :
  parseTree order stats config = Panic p → conversionPanic p.
Proof.
  rewrite parseTree_spec. intros Hp. panic_steps Hp.
  destruct (firstPanic _ _) as [p'|] eqn:Hfirst; [|done].
  injection Hp as ->.
  apply firstPanic_Some_inv in Hfirst as (key & _ & Hkey).
  by apply serviceStatsOf_Panic in Hkey.
Qed.

(** What a payload must hold for the translation to return. *)
Lemma serviceStatsOf_Return_populated stats config key service o :
  serviceStatsOf stats config key = Return o →
  stats !! key = Some (JMap service) →
  forallb (hasFloat64 service) serviceFields = true ∧
  firstPanic (entryOf service) (Config.Servers (configAt config key)) = None.
Proof.
  rewrite serviceStatsOf_spec. intros Ho Hs. rewrite Hs in Ho.
  cbv zeta in Ho. cbn [assertMap mbind outcome_bind] in Ho.
  repeat (apply bind_Return in Ho as (? & ?%assertFloat64_Return & Ho)).
  destruct (firstPanic _ _); [done|]. split; [|done].
  cbn [forallb serviceFields]. unfold hasFloat64.
  repeat match goal with H : _ !! _ = Some _ |- _ => rewrite H; clear H end.
  done.
Qed.

Lemma parseTree_Return_populated order stats config tw :
  parseTree order stats config = Return tw →
  headerPopulated stats = true ∧
  ∀ key service,
    key ∈ order → stats !! key = Some (JMap service) →
    forallb (hasFloat64 service) serviceFields = true ∧
    ∀ val srv,
      val ∈ Config.Servers (configAt config key) →
      service !! hostOf val = Some (JMap srv) →
      forallb (hasFloat64 srv) serverFields = true.
Proof.
  intros (Hfirst & ? & ? & ? & ? & H1 & H2 & H3 & H4 & _)%parseTree_Return.
  split.
  - unfold headerPopulated, hasString, hasFloat64. by rewrite H1, H2, H3, H4.
  - intros key service Hkey Hs.
    apply firstPanic_None in Hfirst. rewrite Forall_forall in Hfirst.
    destruct (Hfirst key Hkey) as [o Ho].
    destruct (serviceStatsOf_Return_populated _ _ _ _ _ Ho Hs)
      as [Hfields Hentries].
    split; [done|]. intros val srv Hval Hsrv.
    apply firstPanic_None in Hentries. rewrite Forall_forall in Hentries.
    destruct (Hentries val Hval) as [[ss|] Hentry].
    + apply entryOf_Some in Hentry as (srv' & Hsrv' & _ & _ & _ & ?).
      congruence.
    + apply entryOf_None in Hentry. congruence.
Qed.

(** ** What the translation depends on *)

Lemma firstPanic_ext {A B} (f g : A → outcome B) l :
  (∀ x, x ∈ l → f x = g x) → firstPanic f l = firstPanic g l.
Proof.
  induction l as [|x l IH]; intros Hfg; simpl; [done|].
  rewrite <- (Hfg x) by left. destruct (f x); [|done].
  apply IH. intros y Hy. apply Hfg. by right.
Qed.

Lemma firstPanic_filter {A B} (f : A → outcome B) (P : A → Prop)
    `{∀ x, Decision (P x)} l :
  (∀ x, x ∈ l → ¬ P x → ∃ b, f x = Return b) →
  firstPanic f (filter P l) = firstPanic f l.
Proof.
  induction l as [|x l IH]; intros Hret; [done|].
  assert (firstPanic f (filter P l) = firstPanic f l) as IH'.
  { apply IH. intros y Hy. apply Hret. by right. }
  rewrite filter_cons. destruct (decide (P x)) as [HP|HP]; simpl.
  - by rewrite IH'.
  - destruct (Hret x) as [b ->]; [by left | done | done].
Qed.

(** The iteration for [key] reads [stats[key]] and [config[key]] only. *)
Lemma serviceStatsOf_ext stats stats' config config' key :
  stats !! key = stats' !! key →
  configAt config key = configAt config' key →
  serviceStatsOf stats config key = serviceStatsOf stats' config' key.
Proof. intros Hs Hc. rewrite !serviceStatsOf_spec. by rewrite Hs, Hc. Qed.

Lemma snapshotAfter_ext stats stats' config config' keys : ∀ tw,
  (∀ k, k ∈ keys → stored stats config k = stored stats' config' k) →
  snapshotAfter stats config keys tw = snapshotAfter stats' config' keys tw.
Proof.
  unfold snapshotAfter.
  induction keys as [|key keys IH]; intros tw Heq; simpl; [done|].
  rewrite (Heq key) by left. apply IH. intros k Hk. apply Heq. by right.
Qed.

Lemma snapshotAfter_filter stats config (P : string → Prop)
    `{∀ x, Decision (P x)} keys : ∀ tw,
  (∀ k, k ∈ keys → ¬ P k → stored stats config k = None) →
  snapshotAfter stats config (filter P keys) tw
  = snapshotAfter stats config keys tw.
Proof.
  unfold snapshotAfter.
  induction keys as [|key keys IH]; intros tw Hnone; [done|].
  rewrite filter_cons. destruct (decide (P key)) as [HP|HP]; simpl.
  - apply IH. intros k Hk. apply Hnone. by right.
  - rewrite (Hnone key) by (done || left). simpl.
    apply IH. intros k Hk. apply Hnone. by right.
Qed.

(** A range over the topology without [key]. *)
Lemma rangeOrder_delete {V} (m : gmap string V) order key :
  rangeOrder m order →
  rangeOrder (delete key m) (filter (λ k, k ≠ key) order).
Proof.
  intros Horder. unfold rangeOrder. apply NoDup_Permutation.
  - by apply NoDup_filter, (rangeOrder_NoDup m).
  - apply NoDup_fst_map_to_list.
  - intros k. rewrite list_elem_of_filter.
    rewrite (rangeOrder_elem_of m order k Horder).
    assert (rangeOrder (delete key m) (map_to_list (delete key m)).*1) as Hd
      by (unfold rangeOrder; reflexivity).
    rewrite (rangeOrder_elem_of _ _ k Hd), lookup_delete_is_Some.
    split; intros [? ?]; split; congruence || done.
Qed.

(** The translation of a payload without [key] is that of the topology
    without [key]. *)
Lemma parseTree_absent order stats config key :
  stats !! key = None →
  parseTree order stats config
  = parseTree (filter (λ k, k ≠ key) order) stats (delete key config).
Proof.
  intros Habsent. rewrite !parseTree_spec.
  assert (∀ k, k ≠ key →
            serviceStatsOf stats (delete key config) k
            = serviceStatsOf stats config k) as Hother.
  { intros k Hk. apply serviceStatsOf_ext; [done|].
    unfold configAt. by rewrite lookup_delete_ne. }
  assert (firstPanic (serviceStatsOf stats (delete key config))
            (filter (λ k, k ≠ key) order)
          = firstPanic (serviceStatsOf stats config) order) as ->.
  { rewrite (firstPanic_ext _ (serviceStatsOf stats config)).
    - apply firstPanic_filter. intros k _ Hk. exists None.
      apply dec_stable in Hk as ->. by apply serviceStatsOf_Return_None.
    - intros k [Hk _]%list_elem_of_filter. by apply Hother. }
  assert (∀ tw, snapshotAfter stats (delete key config)
                  (filter (λ k, k ≠ key) order) tw
                = snapshotAfter stats config order tw) as Hsnap.
  { intros tw.
    rewrite (snapshotAfter_ext _ stats _ config).
    - apply snapshotAfter_filter. intros k _ Hk.
      apply dec_stable in Hk as ->. by apply stored_absent.
    - intros k [Hk _]%list_elem_of_filter. unfold stored.
      by rewrite Hother. }
  destruct (assertString (stats !! "service")); [|done].
  destruct (assertString (stats !! "source")); [|done].
  destruct (assertFloat64 (stats !! "total_connections")); [|done].
  destruct (assertFloat64 (stats !! "curr_connections")); [|done].
  cbn [mbind outcome_bind]. destruct (firstPanic _ order); [done|].
  by rewrite Hsnap.
Qed.

(** *** An entry of a service block that no declared backend resolves to *)

Lemma entryOf_extra service val k v :
  hostOf val ≠ k → entryOf (<[k := v]> service) val = entryOf service val.
Proof. intros Hk. unfold entryOf. by rewrite lookup_insert_ne. Qed.

Lemma emitted_ext service service' servers : ∀ M,
  (∀ val, val ∈ servers → entryOf service' val = entryOf service val) →
  foldl (emit service') M servers = foldl (emit service) M servers.
Proof.
  induction servers as [|val servers IH]; intros M Heq; simpl; [done|].
  unfold emit at 2 4. rewrite (Heq val) by left.
  apply IH. intros val' Hval'. apply Heq. by right.
Qed.

Lemma downCount_ext service service' servers :
  (∀ val, val ∈ servers → entryOf service' val = entryOf service val) →
  downCount service' servers = downCount service servers.
Proof.
  intros Heq. apply sum_list_with_eq. intros val Hval.
  unfold contribution, down. by rewrite Heq.
Qed.

Lemma serviceStatsOf_extra stats config key service k v k0 :
  stats !! key = Some (JMap service) →
  k ∉ serviceFields →
  (∀ val, val ∈ Config.Servers (configAt config key) → hostOf val ≠ k) →
  serviceStatsOf (<[key := JMap (<[k := v]> service)]> stats) config k0
  = serviceStatsOf stats config k0.
Proof.
  intros Hs Hfield Hbackend. destruct (decide (k0 = key)) as [->|Hne].
  - rewrite !serviceStatsOf_spec, lookup_insert_eq, Hs. cbv zeta.
    cbn [assertMap mbind outcome_bind].
    assert (∀ val, val ∈ Config.Servers (configAt config key) →
              entryOf (<[k := v]> service) val = entryOf service val) as Hentry
      by (intros val Hval; by apply entryOf_extra, Hbackend).
    rewrite (firstPanic_ext _ (entryOf service)) by done.
    rewrite (downCount_ext service) by done.
    rewrite (emitted_ext service) by done.
    unfold serviceFields in Hfield.
    rewrite !(lookup_insert_ne service k) by set_solver.
    done.
  - apply serviceStatsOf_ext; [|done]. by rewrite lookup_insert_ne.
Qed.

Lemma assertString_block (stats : gmap string JValue) key m m' n :
  stats !! key = Some (JMap m) →
  assertString (<[key := JMap m']> stats !! n) = assertString (stats !! n).
Proof.
  intros Hs. destruct (decide (key = n)) as [<-|Hne].
  - by rewrite lookup_insert_eq, Hs.
  - by rewrite lookup_insert_ne.
Qed.

Lemma assertFloat64_block (stats : gmap string JValue) key m m' n :
  stats !! key = Some (JMap m) →
  assertFloat64 (<[key := JMap m']> stats !! n) = assertFloat64 (stats !! n).
Proof.
  intros Hs. destruct (decide (key = n)) as [<-|Hne].
  - by rewrite lookup_insert_eq, Hs.
  - by rewrite lookup_insert_ne.
Qed.

Lemma parseTree_extra order stats config key service k v :
  stats !! key = Some (JMap service) →
  k ∉ serviceFields →
  (∀ val, val ∈ Config.Servers (configAt config key) → hostOf val ≠ k) →
  parseTree order (<[key := JMap (<[k := v]> service)]> stats) config
  = parseTree order stats config.
Proof.
  intros Hs Hfield Hbackend. rewrite !parseTree_spec.
  rewrite !(assertString_block stats key service) by done.
  rewrite !(assertFloat64_block stats key service) by done.
  rewrite (firstPanic_ext _ (serviceStatsOf stats config))
    by (intros; by apply serviceStatsOf_extra).
  destruct (assertString (stats !! "service")); [|done].
  destruct (assertString (stats !! "source")); [|done].
  destruct (assertFloat64 (stats !! "total_connections")); [|done].
  destruct (assertFloat64 (stats !! "curr_connections")); [|done].
  cbn [mbind outcome_bind]. destruct (firstPanic _ order); [done|].
  f_equal. apply snapshotAfter_ext. intros k0 _. unfold stored.
  by rewrite (serviceStatsOf_extra stats config key service k v k0).
Qed.

(** ** The poll cycle *)

Lemma publish_zero hostname g :
  publish hostname TwemproxyStats.zero g
  = Gauges.setTwemproxy "current_connections" [hostname] 0%float
      (Gauges.setTwemproxy "total_connections" [hostname] 0%float g).
Proof.
  unfold publish. cbn [TwemproxyStats.Services TwemproxyStats.zero].
  by rewrite map_to_list_empty.
Qed.

Section claims.
Context {json : Decoder}.

(** C8. For every snapshot [parseStats] returns, the [NotAvailable] of
    the entries of [Services] sum to the top-level [NotAvailable], and
    their [ExpectedAvailable] sum to the top-level [ExpectedAvailable]. *)
Theorem counts_additive order content config tw e :
  rangeOrder config order → fits config →
  parseStats order content config = Return (tw, e) →
  sumOver ServiceStats.NotAvailable (TwemproxyStats.Services tw)
    = TwemproxyStats.NotAvailable tw ∧
  sumOver ServiceStats.ExpectedAvailable (TwemproxyStats.Services tw)
    = TwemproxyStats.ExpectedAvailable tw.
Proof.
  intros Horder Hfits
    [(err & _ & -> & _) | (stats & _ & _ & Htree)]%parseStats_Return.
  - done.
  - by destruct (snapshot_facts _ _ _ _ Horder Hfits Htree)
      as (_ & _ & _ & _ & ? & ?).
Qed.

(** C9. In every snapshot [parseStats] returns, [NotAvailable] is at most
    [ExpectedAvailable], at the top level and in every entry of
    [Services]; an entry's [ExpectedAvailable] is the number of backends
    the topology declares for that service. *)
Theorem not_available_bounded order content config tw e :
  rangeOrder config order → fits config →
  parseStats order content config = Return (tw, e) →
  TwemproxyStats.NotAvailable tw ≤ TwemproxyStats.ExpectedAvailable tw ∧
  ∀ key sv,
    TwemproxyStats.Services tw !! key = Some sv →
    ∃ c, config !! key = Some c ∧
         ServiceStats.ExpectedAvailable sv = len (Config.Servers c) ∧
         ServiceStats.NotAvailable sv ≤ ServiceStats.ExpectedAvailable sv.
Proof.
  intros Horder Hfits
    [(err & _ & -> & _) | (stats & _ & _ & Htree)]%parseStats_Return.
  - split; [done|]. intros key sv. cbn. by rewrite lookup_empty.
  - destruct (snapshot_facts _ _ _ _ Horder Hfits Htree)
      as (_ & -> & -> & Hservices & _ & _).
    split.
    + apply inj_le, sum_list_with_le. intros. apply downOf_le_expectedOf.
    + intros key sv. rewrite Hservices. case_decide as Hkey; [|done].
      intros Hstored.
      destruct (proj1 (rangeOrder_elem_of config order key Horder) Hkey)
        as [c Hc].
      destruct (stored_counts _ _ _ _ _ Horder Hfits Hkey Hstored) as [Hexp ->].
      destruct (stored_Some _ _ _ _ Hstored) as (_ & _ & _ & _ & Hlen & _).
      exists c. rewrite Hexp. split_and!; [done| |].
      * rewrite <- Hexp, Hlen. unfold configAt. by rewrite Hc.
      * apply inj_le, downOf_le_expectedOf.
Qed.

(** C7. When the payload has the four top-level scalars and, for every
    service of the topology, a block with its six counters and a fully
    populated block for each declared backend, [parseStats] returns a
    snapshot whose [ExpectedAvailable] is the number of backends the
    topology declares; its [NotAvailable] is 0 when every declared backend
    reports [server_connections ≥ 1]. *)
Theorem populated_counts order content config stats :
  rangeOrder config order → fits config →
  json_Unmarshal content = inr stats →
  fullyPopulated stats config = true →
  ∃ tw,
    parseStats order content config = Return (tw, None) ∧
    TwemproxyStats.ExpectedAvailable tw = Z.of_nat (totalBackends config) ∧
    (allConnected stats config = true → TwemproxyStats.NotAvailable tw = 0).
Proof.
  intros Horder Hfits Hdecode Hfull.
  destruct (parseTree_populated order stats config Horder Hfull) as [tw Htree].
  exists tw. unfold parseStats. rewrite Hdecode, Htree. split; [done|].
  destruct (snapshot_facts _ _ _ _ Horder Hfits Htree)
    as (_ & -> & -> & _ & _ & _).
  apply andb_true_iff in Hfull as [_ Hservices].
  rewrite forallb_forall in Hservices.
  assert (∀ key, key ∈ order →
            ∃ c service, config !! key = Some c ∧
              stats !! key = Some (JMap service) ∧
              forallb (backendPopulated service) (Config.Servers c) = true)
    as Hblocks.
  { intros key Hkey.
    destruct (proj1 (rangeOrder_elem_of config order key Horder) Hkey)
      as [c Hc].
    assert (servicePopulated stats config key = true) as Hpop
      by (apply Hservices, list_elem_of_In; by rewrite <- Horder).
    clear Hservices. rename Hpop into Hservices.
    unfold servicePopulated, configAt in Hservices. rewrite Hc in Hservices.
    destruct (stats !! key) as [[| | | | |service]|]; try done.
    apply andb_true_iff in Hservices as [_ Hservers]. eauto. }
  split.
  - f_equal. rewrite <- (sum_declared config order Horder).
    apply sum_list_with_eq. intros key Hkey.
    destruct (Hblocks key Hkey) as (c & service & _ & Hs & _).
    unfold expectedOf. by rewrite Hs.
  - intros Hconnected. change 0 with (Z.of_nat 0). f_equal.
    rewrite (sum_list_with_eq _ (λ _, 0%nat)).
    + clear. induction order; simpl; lia.
    + intros key Hkey.
      destruct (Hblocks key Hkey) as (c & service & Hc & Hs & Hservers).
      unfold downOf, configAt. rewrite Hs, Hc. simpl. unfold downCount.
      rewrite (sum_list_with_eq _ (λ _, 0%nat)).
      * clear. induction (Config.Servers c); simpl; lia.
      * intros val Hval. apply connected_not_down.
        -- rewrite forallb_forall in Hservers.
           by apply Hservers, list_elem_of_In.
        -- unfold allConnected in Hconnected.
           rewrite forallb_forall in Hconnected.
           specialize (Hconnected (key, c)). simpl in Hconnected.
           rewrite Hs, forallb_forall in Hconnected.
           apply Hconnected; [|by apply list_elem_of_In].
           by apply list_elem_of_In, elem_of_map_to_list.
Qed.

(** C5, as the code has it. For a declared backend with a non-empty alias
    whose alias is a key of its service's block, the snapshot stores under
    that alias a [ServerStats] whose [Host] is the alias and whose
    [HostAlias] is the address of a backend declared under that alias: the
    backend's own address when no other backend of the service resolves to
    the same key. *)
Theorem alias_is_host_key order content config stats key c service val tw e :
  rangeOrder config order →
  json_Unmarshal content = inr stats →
  parseStats order content config = Return (tw, e) →
  config !! key = Some c → stats !! key = Some (JMap service) →
  val ∈ Config.Servers c → Server.Alias val ≠ "" →
  is_Some (service !! Server.Alias val) →
  ∃ sv ss,
    TwemproxyStats.Services tw !! key = Some sv ∧
    ServiceStats.Servers sv !! Server.Alias val = Some ss ∧
    ServerStats.Host ss = Server.Alias val ∧
    (∃ val', val' ∈ Config.Servers c ∧ hostOf val' = Server.Alias val ∧
             ServerStats.HostAlias ss = Server.IP val') ∧
    ((∀ val', val' ∈ Config.Servers c → hostOf val' = hostOf val →
              Server.IP val' = Server.IP val) →
     ServerStats.HostAlias ss = Server.IP val).
Proof.
  intros Horder Hdecode Hret Hc Hs Hval Halias Hfound.
  apply parseStats_Return in Hret as [(err & ? & _) | (stats' & ? & _ & Htree)];
    [congruence|].
  assert (stats' = stats) as -> by congruence.
  destruct (returned_service _ _ _ _ _ _ Horder Htree (mk_is_Some _ _ Hc) Hs)
    as (sv & Hsv & Hstored).
  assert (hostOf val = Server.Alias val) as Hhost
    by (unfold hostOf; by rewrite decide_True).
  assert (configAt config key = c) as Hat by (unfold configAt; by rewrite Hc).
  destruct (stored_Some _ _ _ _ Hstored)
    as (service' & Hs' & Hfirst & _ & _ & _ & Hservers).
  assert (service' = service) as -> by congruence.
  rewrite Hat in Hfirst, Hservers.
  apply firstPanic_None in Hfirst. rewrite Forall_forall in Hfirst.
  destruct (Hfirst val Hval) as [[ss0|] Hentry].
  - destruct (emitted_present service (Config.Servers c) ∅ val ss0 Hval Hentry)
      as [ss Hss].
    rewrite Hhost in Hss. exists sv, ss. rewrite Hservers.
    split; [done|]. split; [done|].
    apply emitted_lookup in Hss as [Hss | (val' & ? & ? & Hentry')];
      [by rewrite lookup_empty in Hss|].
    apply entryOf_Some in Hentry' as (_ & _ & Hh & Ha & _).
    split_and!; [congruence | by exists val' |].
    intros Hunique. rewrite Ha. apply Hunique; congruence.
  - apply entryOf_None in Hentry. rewrite Hhost in Hentry.
    rewrite Hentry in Hfound. by destruct Hfound.
Qed.

(** C6. For a service present in the payload, the service's [NotAvailable]
    is the sum of its declared backends' contributions, and these are what
    the service adds to the top-level [NotAvailable]. A backend whose
    resolved key is missing from the service block contributes 1 and has
    no entry in [Servers]; one whose block reports [server_connections]
    below 1 contributes 1 and has an entry. *)
Theorem backend_contributions order content config stats key c service tw e :
  rangeOrder config order → fits config →
  json_Unmarshal content = inr stats →
  parseStats order content config = Return (tw, e) →
  config !! key = Some c → stats !! key = Some (JMap service) →
  ∃ sv,
    TwemproxyStats.Services tw !! key = Some sv ∧
    ServiceStats.NotAvailable sv
      = Z.of_nat (sum_list_with (contribution service) (Config.Servers c)) ∧
    TwemproxyStats.NotAvailable tw
      = Z.of_nat (sum_list_with (contribution service) (Config.Servers c))
        + Z.of_nat (sum_list_with (downOf stats config)
                      (filter (λ k, k ≠ key) order)) ∧
    ∀ val, val ∈ Config.Servers c →
      (service !! hostOf val = None →
       contribution service val = 1%nat ∧
       ServiceStats.Servers sv !! hostOf val = None) ∧
      (∀ srv f,
         service !! hostOf val = Some (JMap srv) →
         srv !! "server_connections" = Some (JFloat64 f) →
         PrimFloat.ltb f 1%float = true →
         contribution service val = 1%nat ∧
         ∃ ss, ServiceStats.Servers sv !! hostOf val = Some ss ∧
               ServerStats.ServerConnections ss = f).
Proof.
  intros Horder Hfits Hdecode Hret Hc Hs.
  apply parseStats_Return in Hret as [(err & ? & _) | (stats' & ? & _ & Htree)];
    [congruence|].
  assert (stats' = stats) as -> by congruence.
  destruct (returned_service _ _ _ _ _ _ Horder Htree (mk_is_Some _ _ Hc) Hs)
    as (sv & Hsv & Hstored).
  assert (key ∈ order) as Hkey
    by (apply (rangeOrder_elem_of config order key Horder); eauto).
  assert (configAt config key = c) as Hat by (unfold configAt; by rewrite Hc).
  assert (downOf stats config key
          = sum_list_with (contribution service) (Config.Servers c)) as Hdown
    by (unfold downOf; by rewrite Hs, Hat).
  destruct (stored_counts _ _ _ _ _ Horder Hfits Hkey Hstored) as [_ Hna].
  destruct (snapshot_facts _ _ _ _ Horder Hfits Htree)
    as (_ & _ & Htop & _ & _ & _).
  destruct (stored_Some _ _ _ _ Hstored)
    as (service' & Hs' & Hfirst & _ & _ & _ & Hservers).
  assert (service' = service) as -> by congruence.
  rewrite Hat in Hfirst, Hservers.
  apply firstPanic_None in Hfirst. rewrite Forall_forall in Hfirst.
  exists sv. split_and!; [done | congruence | |].
  - rewrite Htop, <- Hdown, <- Nat2Z.inj_add. f_equal.
    by apply sum_list_with_split, (rangeOrder_NoDup config).
  - intros val Hval. split.
    + intros Habsent. split.
      * unfold contribution, down.
        by rewrite (proj2 (entryOf_None service val) Habsent).
      * rewrite Hservers.
        destruct (foldl _ _ _ !! hostOf val) as [ss|] eqn:Hss; [|done].
        apply emitted_lookup in Hss as [Hss | (val' & _ & Hh & Hentry)];
          [by rewrite lookup_empty in Hss|].
        apply entryOf_Some in Hentry as (srv & Hsrv & _). congruence.
    + intros srv f Hsrv Hconn Hlt.
      destruct (Hfirst val Hval) as [[ss0|] Hentry];
        [|apply entryOf_None in Hentry; congruence].
      split.
      * apply entryOf_Some in Hentry as Hss0.
        destruct Hss0 as (srv' & Hsrv' & _ & _ & Hconn' & _).
        assert (srv' = srv) as -> by congruence.
        unfold contribution, down. rewrite Hentry. simpl.
        assert (ServerStats.ServerConnections ss0 = f) as -> by congruence.
        by rewrite Hlt.
      * destruct (emitted_present service (Config.Servers c) ∅ val ss0 Hval
                    Hentry) as [ss Hss].
        exists ss. rewrite Hservers. split; [done|].
        apply emitted_lookup in Hss as [Hss | (val' & _ & Hh & Hentry')];
          [by rewrite lookup_empty in Hss|].
        apply entryOf_Some in Hentry' as (srv' & Hsrv' & _ & _ & Hconn' & _).
        rewrite Hh in Hsrv'. congruence.
Qed.

(** C3, as the code has it. When the decoded payload lacks one of the four
    top-level scalars, or a present service block lacks one of its six
    counters (or holds it with another type), [parseStats] neither returns
    a snapshot nor an error: the unchecked type assertion panics with an
    interface-conversion error, which carries the dynamic and the asserted
    type and not the name of the field. *)
Theorem missing_field_panics order content config stats :
  rangeOrder config order →
  json_Unmarshal content = inr stats →
  headerPopulated stats = false ∨
  (∃ key service,
     is_Some (config !! key) ∧ stats !! key = Some (JMap service) ∧
     forallb (hasFloat64 service) serviceFields = false) →
  (∃ dyn want,
     parseStats order content config = Panic (InterfaceConversion dyn want)) ∧
  (hasString stats "service" = false →
   parseStats order content config
   = Panic (InterfaceConversion (dyntype (stats !! "service")) TString)).
Proof.
  intros Horder Hdecode Hmissing. unfold parseStats. rewrite Hdecode. split.
  - destruct (parseTree order stats config) as [tw|p] eqn:Htree.
    + apply parseTree_Return_populated in Htree as [Hheader Hservices].
      destruct Hmissing as [? | (key & service & Hkey & Hs & Hfields)];
        [congruence|].
      apply (rangeOrder_elem_of config order key Horder) in Hkey.
      destruct (Hservices key service Hkey Hs) as [? _]. congruence.
    + apply parseTree_Panic in Htree as (dyn & want & ->).
      by exists dyn, want.
  - unfold hasString, parseTree.
    by destruct (stats !! "service") as [[]|].
Qed.

(** C4, as the code has it. When a declared backend's resolved key is
    found in its service's block and the backend's block lacks one of the
    thirteen counters read from it (or holds it with another type),
    [parseStats] panics with an interface-conversion error: no counter is
    defaulted to zero and nothing is returned. *)
Theorem missing_counter_panics order content config stats key c service val srv :
  rangeOrder config order →
  json_Unmarshal content = inr stats →
  config !! key = Some c → stats !! key = Some (JMap service) →
  val ∈ Config.Servers c → service !! hostOf val = Some (JMap srv) →
  forallb (hasFloat64 srv) serverFields = false →
  ∃ dyn want,
    parseStats order content config = Panic (InterfaceConversion dyn want).
Proof.
  intros Horder Hdecode Hc Hs Hval Hsrv Hfields.
  unfold parseStats. rewrite Hdecode.
  destruct (parseTree order stats config) as [tw|p] eqn:Htree.
  - apply parseTree_Return_populated in Htree as [_ Hservices].
    assert (key ∈ order) as Hkey
      by (apply (rangeOrder_elem_of config order key Horder); eauto).
    destruct (Hservices key service Hkey Hs) as [_ Hbackends].
    assert (configAt config key = c) as Hat
      by (unfold configAt; by rewrite Hc).
    rewrite Hat in Hbackends.
    specialize (Hbackends val srv Hval Hsrv). congruence.
  - apply parseTree_Panic in Htree as (dyn & want & ->). by exists dyn, want.
Qed.

(** C1, as the code has it. When a service declared in the topology has no
    top-level key in the payload, its iteration stops at the [continue] of
    line 78, before line 80 adds to [ExpectedAvailable]: [parseStats] gives
    what it gives for the topology without that service, so the service
    adds nothing to [ExpectedAvailable] or [NotAvailable], and the snapshot
    has no entry for it in [Services]. *)
Theorem absent_service_skipped order content config stats key :
  rangeOrder config order →
  json_Unmarshal content = inr stats →
  stats !! key = None →
  rangeOrder (delete key config) (filter (λ k, k ≠ key) order) ∧
  parseStats order content config
  = parseStats (filter (λ k, k ≠ key) order) content (delete key config) ∧
  ∀ tw e,
    parseStats order content config = Return (tw, e) →
    TwemproxyStats.Services tw !! key = None.
Proof.
  intros Horder Hdecode Habsent. split_and!.
  - by apply rangeOrder_delete.
  - unfold parseStats. rewrite Hdecode.
    by rewrite (parseTree_absent order stats config key).
  - intros tw e
      [(err & ? & _) | (stats' & ? & _ & Htree)]%parseStats_Return;
      [congruence|].
    assert (stats' = stats) as -> by congruence.
    destruct (TwemproxyStats.Services tw !! key) as [sv|] eqn:Hsv; [|done].
    apply (returned_service_inv _ _ _ _ _ _ Htree) in Hsv as [_ Hstored].
    by rewrite stored_absent in Hstored.
Qed.

(** C10. In every snapshot [parseStats] returns, a key of a service's
    [Servers] map is the resolved host key of a backend the topology
    declares for that service, and the entry's [Host] is that key. An
    entry of a service block under a key that is neither one of the six
    counters nor the resolved key of a declared backend changes nothing of
    what [parseStats] gives: no entry, no count. *)
Theorem servers_are_declared :
  (∀ order content config tw e key sv h ss,
     rangeOrder config order →
     parseStats order content config = Return (tw, e) →
     TwemproxyStats.Services tw !! key = Some sv →
     ServiceStats.Servers sv !! h = Some ss →
     ServerStats.Host ss = h ∧
     ∃ c val, config !! key = Some c ∧ val ∈ Config.Servers c ∧
              hostOf val = h) ∧
  (∀ order content content' config stats key service k v,
     json_Unmarshal content = inr stats →
     stats !! key = Some (JMap service) →
     k ∉ serviceFields →
     (∀ val, val ∈ Config.Servers (configAt config key) → hostOf val ≠ k) →
     json_Unmarshal content'
       = inr (<[key := JMap (<[k := v]> service)]> stats) →
     parseStats order content' config = parseStats order content config).
Proof.
  split.
  - intros order content config tw e key sv h ss Horder
      [(err & _ & -> & _) | (stats & _ & _ & Htree)]%parseStats_Return Hsv Hss.
    + cbn in Hsv. by rewrite lookup_empty in Hsv.
    + apply (returned_service_inv _ _ _ _ _ _ Htree) in Hsv as [Hkey Hstored].
      destruct (stored_entry _ _ _ _ _ _ Hstored Hss)
        as (service & val & _ & Hval & Hh & Hentry).
      apply entryOf_Some in Hentry as (_ & _ & Hhost & _).
      split; [congruence|].
      destruct (proj1 (rangeOrder_elem_of config order key Horder) Hkey)
        as [c Hc].
      exists c, val. unfold configAt in Hval. by rewrite Hc in Hval.
  - intros order content content' config stats key service k v
      Hdecode Hs Hfield Hbackend Hdecode'.
    unfold parseStats. rewrite Hdecode, Hdecode'.
    by rewrite parseTree_extra.
Qed.

(** C2, evaluated on the code. A tick whose dial fails panics on the nil
    connection and ends the polling loop, whatever ticks would follow; a
    tick whose payload does not decode publishes the zero snapshot, setting
    both top-level gauges to 0; a tick whose translation panics ends the
    loop as well. *)
Theorem failed_tick_not_absorbed :
  (∀ hostname m order err ticks g,
     poll hostname m ((order, DialError err) :: ticks) g
     = Panic NilDereference) ∧
  (∀ hostname m order data readErr err g,
     json_Unmarshal (take (Z.to_nat 8192) data) = inl err →
     ∃ g',
       Run hostname order m (Connected data readErr) g = Return (g', None) ∧
       Gauges.twemproxyMetrics g' !! ("total_connections", [hostname])
         = Some 0%float ∧
       Gauges.twemproxyMetrics g' !! ("current_connections", [hostname])
         = Some 0%float) ∧
  (∀ hostname m order data readErr p ticks g,
     parseStats order (take (Z.to_nat 8192) data) (Monitor.Config m) = Panic p →
     poll hostname m ((order, Connected data readErr) :: ticks) g = Panic p).
Proof.
  split_and!.
  - reflexivity.
  - intros hostname m order data readErr err g Hdecode.
    unfold Run, parseStats. rewrite Hdecode. eexists. split; [reflexivity|].
    cbn [fst]. rewrite publish_zero. unfold Gauges.setTwemproxy.
    cbn [Gauges.twemproxyMetrics].
    by rewrite lookup_insert_eq, lookup_insert_ne, lookup_insert_eq.
  - intros hostname m order data readErr p ticks g Hpanic.
    unfold poll. simpl. unfold Run. by rewrite Hpanic.
Qed.
End claims.

(** ** The claims on the sample payloads *)

Lemma counts_additive_witness :
  sumOver ServiceStats.NotAvailable (TwemproxyStats.Services Sample.snapshot)
    = TwemproxyStats.NotAvailable Sample.snapshot ∧
  sumOver ServiceStats.ExpectedAvailable
    (TwemproxyStats.Services Sample.snapshot)
    = TwemproxyStats.ExpectedAvailable Sample.snapshot.
Proof.
  apply (counts_additive (json := Sample.decoder Sample.payload)
           Sample.order Sample.bytes Sample.topology Sample.snapshot None).
  - unfold rangeOrder. reflexivity.
  - by vm_compute.
  - vm_compute. reflexivity.
Defined.

Lemma not_available_bounded_witness :
  TwemproxyStats.NotAvailable Sample.snapshot
    ≤ TwemproxyStats.ExpectedAvailable Sample.snapshot ∧
  ∀ key sv,
    TwemproxyStats.Services Sample.snapshot !! key = Some sv →
    ∃ c, Sample.topology !! key = Some c ∧
         ServiceStats.ExpectedAvailable sv = len (Config.Servers c) ∧
         ServiceStats.NotAvailable sv ≤ ServiceStats.ExpectedAvailable sv.
Proof.
  apply (not_available_bounded (json := Sample.decoder Sample.payload)
           Sample.order Sample.bytes Sample.topology Sample.snapshot None).
  - unfold rangeOrder. reflexivity.
  - by vm_compute.
  - vm_compute. reflexivity.
Defined.

Lemma populated_counts_witness :
  ∃ tw,
    parseStats (json := Sample.decoder Sample.full)
      ["alpha"] Sample.bytes Sample.alphaOnly = Return (tw, None) ∧
    TwemproxyStats.ExpectedAvailable tw = 2 ∧
    TwemproxyStats.NotAvailable tw = 0.
Proof.
  destruct (populated_counts (json := Sample.decoder Sample.full)
              ["alpha"] Sample.bytes Sample.alphaOnly Sample.full)
    as (tw & Hret & Hexp & Hdown).
  - unfold rangeOrder. vm_compute. reflexivity.
  - by vm_compute.
  - reflexivity.
  - vm_compute. reflexivity.
  - exists tw. split_and!; [exact Hret | exact Hexp |].
    apply Hdown. vm_compute. reflexivity.
Defined.

(** The claim C1 fails on the sample: [beta] declares three backends and
    is missing from the payload, and [ExpectedAvailable] is the two
    backends of [alpha], not five. *)
Lemma absent_service_counted_counterexample :
  Sample.topology !! "beta" = Some Sample.beta ∧
  Sample.payload !! "beta" = None ∧
  len (Config.Servers Sample.beta) = 3 ∧
  parseStats (json := Sample.decoder Sample.payload)
    Sample.order Sample.bytes Sample.topology
  = Return (Sample.snapshot, None) ∧
  TwemproxyStats.ExpectedAvailable Sample.snapshot
  = len (Config.Servers Sample.alpha) ∧
  TwemproxyStats.ExpectedAvailable Sample.snapshot
  ≠ len (Config.Servers Sample.alpha) + len (Config.Servers Sample.beta).
Proof. split_and!; by vm_compute. Qed.

Lemma absent_service_skipped_witness :
  rangeOrder (delete "beta" Sample.topology)
    (filter (λ k, k ≠ "beta") Sample.order) ∧
  parseStats (json := Sample.decoder Sample.payload)
    Sample.order Sample.bytes Sample.topology
  = parseStats (json := Sample.decoder Sample.payload)
      (filter (λ k, k ≠ "beta") Sample.order) Sample.bytes
      (delete "beta" Sample.topology) ∧
  ∀ tw e,
    parseStats (json := Sample.decoder Sample.payload)
      Sample.order Sample.bytes Sample.topology = Return (tw, e) →
    TwemproxyStats.Services tw !! "beta" = None.
Proof.
  apply (absent_service_skipped (json := Sample.decoder Sample.payload)
           Sample.order Sample.bytes Sample.topology Sample.payload "beta").
  - unfold rangeOrder. reflexivity.
  - reflexivity.
  - vm_compute. reflexivity.
Defined.

(** The claim C3 fails on the empty object: nothing is returned, neither a
    snapshot nor an error. *)
Lemma missing_field_error_counterexample :
  json_Unmarshal (Decoder := Sample.decoder Sample.payload)
    [Byte.x7b; Byte.x7d] = inr ∅ ∧
  parseStats (json := Sample.decoder Sample.payload)
    Sample.order [Byte.x7b; Byte.x7d] Sample.topology
  = Panic (InterfaceConversion TNil TString) ∧
  ∀ r, parseStats (json := Sample.decoder Sample.payload)
         Sample.order [Byte.x7b; Byte.x7d] Sample.topology ≠ Return r.
Proof. split_and!; [reflexivity | by vm_compute | by vm_compute]. Qed.

Lemma missing_field_panics_witness :
  parseStats (json := Sample.decoder Sample.payload)
    Sample.order [Byte.x7b; Byte.x7d] Sample.topology
  = Panic (InterfaceConversion TNil TString).
Proof.
  destruct (missing_field_panics (json := Sample.decoder Sample.payload)
              Sample.order [Byte.x7b; Byte.x7d] Sample.topology ∅)
    as [_ Hservice].
  - unfold rangeOrder. reflexivity.
  - reflexivity.
  - left. vm_compute. reflexivity.
  - apply Hservice. vm_compute. reflexivity.
Defined.

(** The claim C4 fails on a backend block without [server_eof]: the
    translation panics instead of storing 0. *)
Lemma missing_counter_zero_counterexample :
  Sample.cache2 ∈ Config.Servers Sample.alpha ∧
  (∃ service srv,
     Sample.partial !! "alpha" = Some (JMap service) ∧
     service !! hostOf Sample.cache2 = Some (JMap srv) ∧
     srv !! "server_eof" = None) ∧
  parseStats (json := Sample.decoder Sample.partial)
    Sample.order Sample.bytes Sample.topology
  = Panic (InterfaceConversion TNil TFloat64).
Proof.
  split_and!.
  - right. left.
  - eexists _, _. split_and!; by vm_compute.
  - by vm_compute.
Qed.

Lemma missing_counter_panics_witness :
  ∃ dyn want,
    parseStats (json := Sample.decoder Sample.partial)
      Sample.order Sample.bytes Sample.topology
    = Panic (InterfaceConversion dyn want).
Proof.
  apply (missing_counter_panics (json := Sample.decoder Sample.partial)
           Sample.order Sample.bytes Sample.topology Sample.partial
           "alpha" Sample.alpha
           (Sample.service
              [("cache2", JMap (delete "server_eof" (Sample.backend 5)))])
           Sample.cache2 (delete "server_eof" (Sample.backend 5))).
  - unfold rangeOrder. reflexivity.
  - reflexivity.
  - vm_compute. reflexivity.
  - vm_compute. reflexivity.
  - right. left.
  - vm_compute. reflexivity.
  - vm_compute. reflexivity.
Defined.

(** The claim C5 fails on the sample: the entry of the backend
    [10.0.0.2 cache2] has the address as its [HostAlias]. *)
Lemma alias_display_counterexample :
  Server.Alias Sample.cache2 ≠ "" ∧
  ∃ sv ss,
    TwemproxyStats.Services Sample.snapshot !! "alpha" = Some sv ∧
    ServiceStats.Servers sv !! "cache2" = Some ss ∧
    ServerStats.Host ss = "cache2" ∧
    ServerStats.HostAlias ss = "10.0.0.2" ∧
    ServerStats.HostAlias ss ≠ Server.Alias Sample.cache2.
Proof.
  split; [done|]. eexists _, _. split_and!; by vm_compute.
Qed.

Lemma alias_is_host_key_witness :
  ∃ sv ss,
    TwemproxyStats.Services Sample.snapshot !! "alpha" = Some sv ∧
    ServiceStats.Servers sv !! "cache2" = Some ss ∧
    ServerStats.Host ss = "cache2" ∧
    ServerStats.HostAlias ss = "10.0.0.2".
Proof.
  destruct (alias_is_host_key (json := Sample.decoder Sample.payload)
              Sample.order Sample.bytes Sample.topology Sample.payload
              "alpha" Sample.alpha
              (Sample.service [("cache2", JMap (Sample.backend 5))])
              Sample.cache2 Sample.snapshot None)
    as (sv & ss & Hsv & Hss & Hhost & _ & Halias).
  - unfold rangeOrder. reflexivity.
  - reflexivity.
  - vm_compute. reflexivity.
  - vm_compute. reflexivity.
  - vm_compute. reflexivity.
  - right. left.
  - done.
  - vm_compute. eauto.
  - exists sv, ss. split_and!; [exact Hsv | exact Hss | exact Hhost |].
    apply Halias. intros val' Hval' Hkey.
    apply elem_of_cons in Hval' as [->|Hval']; [discriminate Hkey|].
    apply elem_of_cons in Hval' as [->|Hval']; [reflexivity|].
    inversion Hval'.
Defined.

Lemma backend_contributions_witness :
  ∃ sv,
    TwemproxyStats.Services Sample.snapshot !! "alpha" = Some sv ∧
    ServiceStats.NotAvailable sv = 1 ∧
    TwemproxyStats.NotAvailable Sample.snapshot = 1 + 0 ∧
    ServiceStats.Servers sv !! "10.0.0.1" = None.
Proof.
  destruct (backend_contributions (json := Sample.decoder Sample.payload)
              Sample.order Sample.bytes Sample.topology Sample.payload
              "alpha" Sample.alpha
              (Sample.service [("cache2", JMap (Sample.backend 5))])
              Sample.snapshot None)
    as (sv & Hsv & Hna & Htop & Hvals).
  - unfold rangeOrder. reflexivity.
  - by vm_compute.
  - reflexivity.
  - vm_compute. reflexivity.
  - vm_compute. reflexivity.
  - vm_compute. reflexivity.
  - exists sv. split_and!; [exact Hsv | rewrite Hna; by vm_compute
                            | rewrite Htop; by vm_compute |].
    apply (Hvals (Server.mk "10.0.0.1" "")); [left | by vm_compute].
Defined.

Lemma servers_are_declared_witness :
  ServerStats.Host Sample.cache2Stats = "cache2" ∧
  ∃ c val, Sample.topology !! "alpha" = Some c ∧
           val ∈ Config.Servers c ∧ hostOf val = "cache2".
Proof.
  apply (proj1 (servers_are_declared (json := Sample.decoder Sample.payload))
           Sample.order Sample.bytes Sample.topology Sample.snapshot None
           "alpha" Sample.alphaStats "cache2" Sample.cache2Stats).
  - unfold rangeOrder. reflexivity.
  - vm_compute. reflexivity.
  - vm_compute. reflexivity.
  - vm_compute. reflexivity.
Defined.

Lemma failed_tick_not_absorbed_witness :
  poll (json := Sample.decoder Sample.payload) "host1"
    (Monitor.mk Sample.topology "localhost:22222")
    [(Sample.order, DialError (Error "connection refused"));
     (Sample.order, Connected Sample.bytes None)] Gauges.empty
  = Panic NilDereference ∧
  ∃ g',
    Run (json := Sample.decoder Sample.payload) "host1" Sample.order
      (Monitor.mk Sample.topology "localhost:22222")
      (Connected [] (Some (Error "EOF"))) Gauges.empty
    = Return (g', None) ∧
    Gauges.twemproxyMetrics g' !! ("total_connections", ["host1"])
      = Some 0%float ∧
    Gauges.twemproxyMetrics g' !! ("current_connections", ["host1"])
      = Some 0%float.
Proof.
  destruct (failed_tick_not_absorbed (json := Sample.decoder Sample.payload))
    as (Hdial & Hdecode & _).
  split; [apply Hdial|].
  apply (Hdecode "host1" (Monitor.mk Sample.topology "localhost:22222")
           Sample.order [] (Some (Error "EOF"))
           (Error "unexpected end of JSON input") Gauges.empty).
  reflexivity.
Defined.

(** ** More on the translator *)

(** *** The order of the range *)

Lemma foldl_perm {A B} (f : B → A → B) :
  (∀ b x y, f (f b x) y = f (f b y) x) →
  ∀ l1 l2, l1 ≡ₚ l2 → ∀ b, foldl f b l1 = foldl f b l2.
Proof.
  intros Hcomm l1 l2 Hperm.
  induction Hperm as [|x l1 l2 _ IH|x y l|l1 l2 l3 _ IH1 _ IH2]; intros b.
  - done.
  - simpl. apply IH.
  - simpl. by rewrite Hcomm.
  - by rewrite IH1.
Qed.

Lemma int_add_swap a x y : int_add (int_add a x) y = int_add (int_add a y) x.
Proof. unfold int_add. rewrite !wrap_add_l. f_equal. lia. Qed.

Lemma absorb_swap k1 o1 k2 o2 tw :
  (k1 = k2 → o1 = o2) →
  absorb k2 o2 (absorb k1 o1 tw) = absorb k1 o1 (absorb k2 o2 tw).
Proof.
  intros Hsame. destruct (decide (k1 = k2)) as [->|Hne]; [by rewrite Hsame|].
  destruct o1 as [sv1|], o2 as [sv2|]; try done. simpl.
  f_equal; [apply int_add_swap | apply int_add_swap |].
  by apply insert_insert_ne.
Qed.

Lemma snapshotAfter_perm stats config order1 order2 tw :
  order1 ≡ₚ order2 →
  snapshotAfter stats config order1 tw = snapshotAfter stats config order2 tw.
Proof.
  intros Hperm. unfold snapshotAfter. apply foldl_perm; [|done].
  intros b k1 k2. apply absorb_swap. by intros ->.
Qed.

Lemma firstPanic_None_perm {A B} (f : A → outcome B) l1 l2 :
  l1 ≡ₚ l2 → firstPanic f l1 = None → firstPanic f l2 = None.
Proof. rewrite !firstPanic_None. by intros ->. Qed.

Lemma parseTree_perm order1 order2 stats config tw :
  order1 ≡ₚ order2 →
  parseTree order1 stats config = Return tw →
  parseTree order2 stats config = Return tw.
Proof.
  intros Hperm. rewrite !parseTree_spec.
  destruct (assertString (stats !! "service")); [|done].
  destruct (assertString (stats !! "source")); [|done].
  destruct (assertFloat64 (stats !! "total_connections")); [|done].
  destruct (assertFloat64 (stats !! "curr_connections")); [|done].
  cbn [mbind outcome_bind].
  destruct (firstPanic _ order1) eqn:Hfirst; [done|].
  rewrite (firstPanic_None_perm _ _ _ Hperm Hfirst).
  by rewrite (snapshotAfter_perm _ _ _ _ _ Hperm).
Qed.

Section more_translator.
Context {json : Decoder}.

(** X1. The order in which the range visits the topology does not show
    in what [parseStats] returns: two range orders return the same snapshot
    and error, or both panic. *)
Theorem range_order_irrelevant order1 order2 content config r :
  rangeOrder config order1 → rangeOrder config order2 →
  parseStats order1 content config = Return r ↔
  parseStats order2 content config = Return r.
Proof.
  intros H1 H2.
  assert (order1 ≡ₚ order2) as Hperm
    by (unfold rangeOrder in *; by rewrite H1, H2).
  unfold parseStats. destruct (json_Unmarshal content) as [err|stats]; [done|].
  split.
  - destruct (parseTree order1 stats config) as [tw|] eqn:Htree; [|done].
    by rewrite (parseTree_perm _ _ _ _ _ Hperm Htree).
  - destruct (parseTree order2 stats config) as [tw|] eqn:Htree; [|done].
    symmetry in Hperm. by rewrite (parseTree_perm _ _ _ _ _ Hperm Htree).
Qed.
End more_translator.

Lemma range_order_irrelevant_witness :
  parseStats (json := Sample.decoder Sample.payload)
    ["alpha"; "beta"] Sample.bytes Sample.topology
  = Return (Sample.snapshot, None) ↔
  parseStats (json := Sample.decoder Sample.payload)
    ["beta"; "alpha"] Sample.bytes Sample.topology
  = Return (Sample.snapshot, None).
Proof.
  apply (range_order_irrelevant (json := Sample.decoder Sample.payload)).
  - unfold rangeOrder. vm_compute.
    first [reflexivity | apply perm_swap].
  - unfold rangeOrder. vm_compute.
    first [reflexivity | apply perm_swap].
Defined.

(** *** Values copied from the payload *)

Lemma snapshot_header stats config keys : ∀ tw,
  let tw' := snapshotAfter stats config keys tw in
  TwemproxyStats.Service tw' = TwemproxyStats.Service tw ∧
  TwemproxyStats.Source tw' = TwemproxyStats.Source tw ∧
  TwemproxyStats.TotalConnections tw' = TwemproxyStats.TotalConnections tw ∧
  TwemproxyStats.CurrentConnections tw'
    = TwemproxyStats.CurrentConnections tw.
Proof.
  induction keys as [|key keys IH]; intros tw; [done|].
  unfold snapshotAfter in *. simpl foldl.
  destruct (IH (absorb key (stored stats config key) tw)) as (-> & -> & -> & ->).
  by destruct (stored stats config key).
Qed.

Lemma stored_fields stats config key sv :
  stored stats config key = Some sv →
  ∃ service,
    stats !! key = Some (JMap service) ∧
    service !! "client_eof" = Some (JFloat64 (ServiceStats.ClientEOF sv)) ∧
    service !! "client_err" = Some (JFloat64 (ServiceStats.ClientErr sv)) ∧
    service !! "client_connections"
      = Some (JFloat64 (ServiceStats.ClientConnections sv)) ∧
    service !! "server_ejects"
      = Some (JFloat64 (ServiceStats.ServerEjects sv)) ∧
    service !! "forward_error"
      = Some (JFloat64 (ServiceStats.ForwardError sv)) ∧
    service !! "fragments" = Some (JFloat64 (ServiceStats.Fragments sv)).
Proof.
  unfold stored. rewrite serviceStatsOf_spec.
  destruct (stats !! key) as [s|]; [|done]. cbv zeta.
  destruct (assertMap (Some s)) as [service|] eqn:Hs; [|done].
  apply assertMap_Return in Hs as [= ->]. cbn [mbind outcome_bind].
  match goal with |- match ?c with _ => _ end = _ → _ =>
    destruct c as [o|] eqn:Ho; [|done]
  end.
  intros ->.
  repeat (apply bind_Return in Ho as (? & ?%assertFloat64_Return & Ho)).
  destruct (firstPanic _ _); [done|]. injection Ho as <-.
  exists service. by split_and!.
Qed.

Lemma serverStatsOf_fields host hostAlias srv ss :
  serverStatsOf host hostAlias srv = Return ss →
  srv !! "server_eof" = Some (JFloat64 (ServerStats.ServerEOF ss)) ∧
  srv !! "server_err" = Some (JFloat64 (ServerStats.ServerErr ss)) ∧
  srv !! "server_timedout"
    = Some (JFloat64 (ServerStats.ServerTimedout ss)) ∧
  srv !! "server_connections"
    = Some (JFloat64 (ServerStats.ServerConnections ss)) ∧
  srv !! "server_ejected_at"
    = Some (JFloat64 (ServerStats.ServerEjectedAt ss)) ∧
  srv !! "requests" = Some (JFloat64 (ServerStats.Requests ss)) ∧
  srv !! "request_bytes" = Some (JFloat64 (ServerStats.RequestBytes ss)) ∧
  srv !! "responses" = Some (JFloat64 (ServerStats.Responses ss)) ∧
  srv !! "response_bytes" = Some (JFloat64 (ServerStats.ResponseBytes ss)) ∧
  srv !! "in_queue" = Some (JFloat64 (ServerStats.InQueue ss)) ∧
  srv !! "in_queue_bytes" = Some (JFloat64 (ServerStats.InQueueBytes ss)) ∧
  srv !! "out_queue" = Some (JFloat64 (ServerStats.OutQueue ss)) ∧
  srv !! "out_queue_bytes" = Some (JFloat64 (ServerStats.OutQueueBytes ss)).
Proof.
  unfold serverStatsOf. intros Hss.
  repeat (apply bind_Return in Hss as (? & ?%assertFloat64_Return & Hss)).
  injection Hss as <-. by split_and!.
Qed.

Lemma entryOf_fields service val ss :
  entryOf service val = Return (Some ss) →
  ∃ srv, service !! hostOf val = Some (JMap srv) ∧
         serverStatsOf (hostOf val) (Server.IP val) srv = Return ss.
Proof.
  unfold entryOf. destruct (service !! hostOf val) as [se|]; [|done].
  intros (srv & [= ->]%assertMap_Return & Hss)%bind_Return.
  apply bind_Return in Hss as (ss' & Hss & [= ->]). by exists srv.
Qed.

(** A declared backend whose key is in the service block has, in a
    returned snapshot, an entry under that key, emitted by a backend that
    resolves to the same key. *)
Lemma found_entry order stats config tw key c service val :
  rangeOrder config order →
  parseTree order stats config = Return tw →
  config !! key = Some c → stats !! key = Some (JMap service) →
  val ∈ Config.Servers c → is_Some (service !! hostOf val) →
  ∃ sv ss val',
    TwemproxyStats.Services tw !! key = Some sv ∧
    stored stats config key = Some sv ∧
    ServiceStats.Servers sv !! hostOf val = Some ss ∧
    val' ∈ Config.Servers c ∧ hostOf val' = hostOf val ∧
    entryOf service val' = Return (Some ss).
Proof.
  intros Horder Htree Hc Hs Hval Hfound.
  destruct (returned_service _ _ _ _ _ _ Horder Htree (mk_is_Some _ _ Hc) Hs)
    as (sv & Hsv & Hstored).
  assert (configAt config key = c) as Hat by (unfold configAt; by rewrite Hc).
  destruct (stored_Some _ _ _ _ Hstored)
    as (service' & Hs' & Hfirst & _ & _ & _ & Hservers).
  assert (service' = service) as -> by congruence.
  rewrite Hat in Hfirst, Hservers.
  apply firstPanic_None in Hfirst. rewrite Forall_forall in Hfirst.
  destruct (Hfirst val Hval) as [[ss0|] Hentry].
  - destruct (emitted_present service (Config.Servers c) ∅ val ss0 Hval Hentry)
      as [ss Hss].
    pose proof Hss as Hss'.
    apply emitted_lookup in Hss' as [Hss' | (val' & ? & ? & ?)];
      [by rewrite lookup_empty in Hss'|].
    exists sv, ss, val'. rewrite Hservers. by split_and!.
  - apply entryOf_None in Hentry. rewrite Hentry in Hfound.
    by destruct Hfound.
Qed.

Lemma sum_list_with_zero {A} (f : A → nat) l :
  (∀ x, x ∈ l → f x = 0%nat) → sum_list_with f l = 0%nat.
Proof.
  intros Hf. rewrite (sum_list_with_eq f (λ _, 0%nat)) by done.
  clear Hf. induction l as [|x l IH]; simpl; done.
Qed.

Lemma sum_list_with_one {A} (f : A → nat) l :
  (∀ x, x ∈ l → f x = 1%nat) → sum_list_with f l = length l.
Proof.
  intros Hf. rewrite (sum_list_with_eq f (λ _, 1%nat)) by done.
  clear Hf. induction l as [|x l IH]; simpl; [done|]. by rewrite IH.
Qed.

Lemma sum_over_range stats config order :
  rangeOrder config order →
  sum_list_with (expectedOf stats config) order = presentBackends stats config ∧
  sum_list_with (downOf stats config) order = downBackends stats config.
Proof.
  unfold rangeOrder, presentBackends, downBackends. intros ->.
  rewrite !sum_list_with_fmap.
  split; apply sum_list_with_eq; intros [k c] Hkc%elem_of_map_to_list; simpl.
  - unfold expectedOf, configAt. by rewrite Hkc.
  - unfold downOf, configAt. by rewrite Hkc.
Qed.

Lemma parseTree_unused order stats config k v :
  rangeOrder config order → config !! k = None → k ∉ headerFields →
  parseTree order (<[k := v]> stats) config = parseTree order stats config.
Proof.
  intros Horder Hk Hheader. rewrite !parseTree_spec.
  unfold headerFields in Hheader.
  rewrite !(lookup_insert_ne stats k) by set_solver.
  assert (∀ k0, k0 ∈ order →
            serviceStatsOf (<[k := v]> stats) config k0
            = serviceStatsOf stats config k0) as Hsame.
  { intros k0 Hk0. apply serviceStatsOf_ext; [|done].
    apply (rangeOrder_elem_of config order k0 Horder) in Hk0 as [c Hc].
    rewrite lookup_insert_ne; [done|]. congruence. }
  rewrite (firstPanic_ext _ (serviceStatsOf stats config)) by done.
  destruct (assertString (stats !! "service")); [|done].
  destruct (assertString (stats !! "source")); [|done].
  destruct (assertFloat64 (stats !! "total_connections")); [|done].
  destruct (assertFloat64 (stats !! "curr_connections")); [|done].
  cbn [mbind outcome_bind]. destruct (firstPanic _ order); [done|].
  f_equal. apply snapshotAfter_ext. intros k0 Hk0. unfold stored.
  by rewrite Hsame.
Qed.

Section copied.
Context {json : Decoder}.

(** X2. The four top-level scalars of a returned snapshot are those of
    the payload. *)
Theorem header_copied order content config stats tw e :
  json_Unmarshal content = inr stats →
  parseStats order content config = Return (tw, e) →
  stats !! "service" = Some (JString (TwemproxyStats.Service tw)) ∧
  stats !! "source" = Some (JString (TwemproxyStats.Source tw)) ∧
  stats !! "total_connections"
    = Some (JFloat64 (TwemproxyStats.TotalConnections tw)) ∧
  stats !! "curr_connections"
    = Some (JFloat64 (TwemproxyStats.CurrentConnections tw)).
Proof.
  intros Hdecode
    [(err & ? & _) | (stats' & ? & _ & Htree)]%parseStats_Return;
    [congruence|].
  assert (stats' = stats) as -> by congruence.
  apply (parseTree_Return order stats config)
    in Htree as (_ & sv & so & tc & cc & H1 & H2 & H3 & H4 & ->).
  destruct (snapshot_header stats config order
              (TwemproxyStats.mk sv so tc cc 0 0 ∅)) as (-> & -> & -> & ->).
  done.
Qed.

(** X3. An entry of [Services] carries its key as [Name] and the six
    counters of the payload's block for that key. *)
Theorem service_counters_copied order content config stats tw e key sv :
  json_Unmarshal content = inr stats →
  parseStats order content config = Return (tw, e) →
  TwemproxyStats.Services tw !! key = Some sv →
  ServiceStats.Name sv = key ∧
  ∃ service,
    stats !! key = Some (JMap service) ∧
    service !! "client_eof" = Some (JFloat64 (ServiceStats.ClientEOF sv)) ∧
    service !! "client_err" = Some (JFloat64 (ServiceStats.ClientErr sv)) ∧
    service !! "client_connections"
      = Some (JFloat64 (ServiceStats.ClientConnections sv)) ∧
    service !! "server_ejects"
      = Some (JFloat64 (ServiceStats.ServerEjects sv)) ∧
    service !! "forward_error"
      = Some (JFloat64 (ServiceStats.ForwardError sv)) ∧
    service !! "fragments" = Some (JFloat64 (ServiceStats.Fragments sv)).
Proof.
  intros Hdecode
    [(err & ? & _) | (stats' & ? & _ & Htree)]%parseStats_Return Hsv;
    [congruence|].
  assert (stats' = stats) as -> by congruence.
  apply (returned_service_inv _ _ _ _ _ _ Htree) in Hsv as [_ Hstored].
  split.
  - by destruct (stored_Some _ _ _ _ Hstored) as (_ & _ & _ & ? & _).
  - by apply (stored_fields stats config).
Qed.

(** X4. An entry of a service's [Servers] carries the thirteen counters
    of the block found under its key in the payload's service block. *)
Theorem server_counters_copied order content config stats tw e key sv h ss :
  json_Unmarshal content = inr stats →
  parseStats order content config = Return (tw, e) →
  TwemproxyStats.Services tw !! key = Some sv →
  ServiceStats.Servers sv !! h = Some ss →
  ∃ service srv,
    stats !! key = Some (JMap service) ∧ service !! h = Some (JMap srv) ∧
    srv !! "server_eof" = Some (JFloat64 (ServerStats.ServerEOF ss)) ∧
    srv !! "server_err" = Some (JFloat64 (ServerStats.ServerErr ss)) ∧
    srv !! "server_timedout"
      = Some (JFloat64 (ServerStats.ServerTimedout ss)) ∧
    srv !! "server_connections"
      = Some (JFloat64 (ServerStats.ServerConnections ss)) ∧
    srv !! "server_ejected_at"
      = Some (JFloat64 (ServerStats.ServerEjectedAt ss)) ∧
    srv !! "requests" = Some (JFloat64 (ServerStats.Requests ss)) ∧
    srv !! "request_bytes" = Some (JFloat64 (ServerStats.RequestBytes ss)) ∧
    srv !! "responses" = Some (JFloat64 (ServerStats.Responses ss)) ∧
    srv !! "response_bytes"
      = Some (JFloat64 (ServerStats.ResponseBytes ss)) ∧
    srv !! "in_queue" = Some (JFloat64 (ServerStats.InQueue ss)) ∧
    srv !! "in_queue_bytes" = Some (JFloat64 (ServerStats.InQueueBytes ss)) ∧
    srv !! "out_queue" = Some (JFloat64 (ServerStats.OutQueue ss)) ∧
    srv !! "out_queue_bytes"
      = Some (JFloat64 (ServerStats.OutQueueBytes ss)).
Proof.
  intros Hdecode
    [(err & ? & _) | (stats' & ? & _ & Htree)]%parseStats_Return Hsv Hss;
    [congruence|].
  assert (stats' = stats) as -> by congruence.
  apply (returned_service_inv _ _ _ _ _ _ Htree) in Hsv as [_ Hstored].
  destruct (stored_entry _ _ _ _ _ _ Hstored Hss)
    as (service & val & Hs & _ & <- & Hentry).
  apply entryOf_fields in Hentry as (srv & Hsrv & Hfields).
  exists service, srv. split; [done|]. split; [done|].
  by apply serverStatsOf_fields in Hfields.
Qed.

(** X5. The keys of [Services] in a returned snapshot are the services of
    the topology that have a key in the payload. *)
Theorem services_keys order content config stats tw key :
  rangeOrder config order →
  json_Unmarshal content = inr stats →
  parseStats order content config = Return (tw, None) →
  is_Some (TwemproxyStats.Services tw !! key) ↔
  is_Some (config !! key) ∧ is_Some (stats !! key).
Proof.
  intros Horder Hdecode
    [(err & ? & _) | (stats' & ? & _ & Htree)]%parseStats_Return;
    [congruence|].
  assert (stats' = stats) as -> by congruence.
  split.
  - intros [sv Hsv].
    apply (returned_service_inv _ _ _ _ _ _ Htree) in Hsv as [Hkey Hstored].
    split; [by apply (rangeOrder_elem_of config order key Horder)|].
    destruct (stored_Some _ _ _ _ Hstored) as (service & -> & _). eauto.
  - intros [Hc [s Hs]].
    apply (rangeOrder_elem_of config order key Horder) in Hc as Hkey.
    apply parseTree_Return in Htree as (Hfirst & ? & ? & ? & ? & _ & _ & _ & _ & ->).
    rewrite snapshot_services, decide_True by done.
    apply firstPanic_None in Hfirst. rewrite Forall_forall in Hfirst.
    destruct (Hfirst key Hkey) as [[sv|] Ho].
    + unfold stored. rewrite Ho. eauto.
    + apply serviceStatsOf_Return_None in Ho. congruence.
Qed.

(** X6. A top-level key of the payload that is neither a service of the
    topology nor one of the four scalars changes nothing of what
    [parseStats] gives. *)
Theorem unused_key_ignored order content content' config stats k v :
  rangeOrder config order →
  config !! k = None → k ∉ headerFields →
  json_Unmarshal content = inr stats →
  json_Unmarshal content' = inr (<[k := v]> stats) →
  parseStats order content' config = parseStats order content config.
Proof.
  intros Horder Hk Hheader Hdecode Hdecode'. unfold parseStats.
  rewrite Hdecode, Hdecode'. by rewrite parseTree_unused.
Qed.

(** X7. In a returned snapshot, [ExpectedAvailable] is the number of
    backends declared by the services that have a key in the payload, and
    [NotAvailable] is the number of those whose key is missing from their
    service block or whose block reports fewer than one connection; neither
    is negative. *)
Theorem counts_exact order content config stats tw e :
  rangeOrder config order → fits config →
  json_Unmarshal content = inr stats →
  parseStats order content config = Return (tw, e) →
  TwemproxyStats.ExpectedAvailable tw
    = Z.of_nat (presentBackends stats config) ∧
  TwemproxyStats.NotAvailable tw = Z.of_nat (downBackends stats config) ∧
  0 ≤ TwemproxyStats.NotAvailable tw.
Proof.
  intros Horder Hfits Hdecode
    [(err & ? & _) | (stats' & ? & _ & Htree)]%parseStats_Return;
    [congruence|].
  assert (stats' = stats) as -> by congruence.
  destruct (snapshot_facts _ _ _ _ Horder Hfits Htree)
    as (_ & -> & -> & _ & _ & _).
  destruct (sum_over_range stats config order Horder) as [-> ->].
  split_and!; [done | done | lia].
Qed.

(** X8. When the payload's block for a service holds the key of none of
    its declared backends, every declared backend is counted as not
    available and no entry is emitted. *)
Theorem empty_block_all_down order content config stats tw e key c service :
  rangeOrder config order → fits config →
  json_Unmarshal content = inr stats →
  parseStats order content config = Return (tw, e) →
  config !! key = Some c → stats !! key = Some (JMap service) →
  (∀ val, val ∈ Config.Servers c → service !! hostOf val = None) →
  ∃ sv,
    TwemproxyStats.Services tw !! key = Some sv ∧
    ServiceStats.NotAvailable sv = len (Config.Servers c) ∧
    ServiceStats.ExpectedAvailable sv = len (Config.Servers c) ∧
    ServiceStats.Servers sv = ∅.
Proof.
  intros Horder Hfits Hdecode
    [(err & ? & _) | (stats' & ? & _ & Htree)]%parseStats_Return Hc Hs Hnone;
    [congruence|].
  assert (stats' = stats) as -> by congruence.
  destruct (returned_service _ _ _ _ _ _ Horder Htree (mk_is_Some _ _ Hc) Hs)
    as (sv & Hsv & Hstored).
  assert (key ∈ order) as Hkey
    by (apply (rangeOrder_elem_of config order key Horder); eauto).
  assert (configAt config key = c) as Hat by (unfold configAt; by rewrite Hc).
  destruct (stored_counts _ _ _ _ _ Horder Hfits Hkey Hstored) as [Hexp Hna].
  destruct (stored_Some _ _ _ _ Hstored)
    as (service' & Hs' & _ & _ & Hlen & _ & Hservers).
  assert (service' = service) as -> by congruence.
  rewrite Hat in Hlen, Hservers.
  exists sv. split_and!; [done | | done |].
  - rewrite Hna. unfold downOf. rewrite Hs, Hat. unfold len. f_equal.
    apply sum_list_with_one. intros val Hval. unfold contribution, down.
    by rewrite (proj2 (entryOf_None service val) (Hnone val Hval)).
  - apply map_eq. intros h. rewrite lookup_empty, Hservers.
    destruct (foldl _ _ _ !! h) as [ss|] eqn:Hss; [|done].
    apply emitted_lookup in Hss as [Hss | (val & Hval & <- & Hentry)];
      [by rewrite lookup_empty in Hss|].
    apply entryOf_Some in Hentry as (srv & Hsrv & _).
    rewrite (Hnone val Hval) in Hsrv. done.
Qed.

(** X9. A declared backend without alias whose address is a key of its
    service's block has an entry under its address, with [Host] the
    address and [HostAlias] the address of a backend that resolves to that
    key: its own when no other backend of the service does. *)
Theorem unaliased_host_key order content config stats key c service val tw e :
  rangeOrder config order →
  json_Unmarshal content = inr stats →
  parseStats order content config = Return (tw, e) →
  config !! key = Some c → stats !! key = Some (JMap service) →
  val ∈ Config.Servers c → Server.Alias val = "" →
  is_Some (service !! Server.IP val) →
  ∃ sv ss,
    TwemproxyStats.Services tw !! key = Some sv ∧
    ServiceStats.Servers sv !! Server.IP val = Some ss ∧
    ServerStats.Host ss = Server.IP val ∧
    ((∀ val', val' ∈ Config.Servers c → hostOf val' = hostOf val →
              Server.IP val' = Server.IP val) →
     ServerStats.HostAlias ss = Server.IP val).
Proof.
  intros Horder Hdecode
    [(err & ? & _) | (stats' & ? & _ & Htree)]%parseStats_Return
    Hc Hs Hval Halias Hfound; [congruence|].
  assert (stats' = stats) as -> by congruence.
  assert (hostOf val = Server.IP val) as Hhost
    by (unfold hostOf; rewrite Halias; by rewrite decide_False by auto).
  rewrite <- Hhost in Hfound.
  destruct (found_entry _ _ _ _ _ _ _ _ Horder Htree Hc Hs Hval Hfound)
    as (sv & ss & val' & Hsv & _ & Hss & Hval' & Hkey & Hentry).
  apply entryOf_Some in Hentry as (_ & _ & Hh & Ha & _).
  exists sv, ss. rewrite <- Hhost at 1 2. split_and!; [done | done | congruence |].
  intros Hunique. rewrite Ha. by apply Hunique.
Qed.

End copied.

(** ** What a cycle publishes *)

Lemma gaugeOf_unfold metric ss :
  gaugeOf metric ss =
  (λ field : ServerStats.t → float, field ss) <$>
  (<["in_queue" := ServerStats.InQueue]>
   (<["in_queue_bytes" := ServerStats.InQueueBytes]>
    (<["err" := ServerStats.ServerErr]>
     (<["eof" := ServerStats.ServerEOF]>
      (<["timed_out" := ServerStats.ServerTimedout]>
       (<["server_connection" := ServerStats.ServerConnections]>
        (<["server_ejected_at" := ServerStats.ServerEjectedAt]>
           (∅ : gmap string (ServerStats.t → float))))))))) !! metric.
Proof. reflexivity. Qed.

(** Which gauges a server has does not depend on the server. *)
Lemma gaugeOf_is_Some metric ss ss' :
  is_Some (gaugeOf metric ss) → is_Some (gaugeOf metric ss').
Proof. unfold gaugeOf. rewrite !fmap_is_Some. done. Qed.

Lemma publishServer_lookup hostname sn ss g metric labels :
  Gauges.serverMetrics (publishServer hostname sn ss g) !! (metric, labels)
  = match (if decide (labels = labelsOf hostname sn ss)
           then gaugeOf metric ss else None) with
    | Some v => Some v
    | None => Gauges.serverMetrics g !! (metric, labels)
    end.
Proof.
  unfold publishServer, Gauges.setServer, labelsOf. cbn [Gauges.serverMetrics].
  destruct (decide (labels = _)) as [->|Hne].
  - rewrite gaugeOf_unfold.
    rewrite !lookup_insert, lookup_empty.
    repeat case_decide; simplify_eq; done.
  - by rewrite !lookup_insert_ne by congruence.
Qed.

Lemma publishEntries_twemproxy hostname entries : ∀ g,
  Gauges.twemproxyMetrics (publishEntries hostname entries g)
  = Gauges.twemproxyMetrics g.
Proof.
  unfold publishEntries.
  induction entries as [|e entries IH]; intros g; cbn [foldl]; [done|].
  by rewrite IH.
Qed.

(** A gauge of a published server holds the value of the last server
    published with the same labels. *)
Lemma publishEntries_value hostname entries : ∀ g e metric,
  e ∈ entries → is_Some (gaugeOf metric e.2) →
  ∃ v' e',
    Gauges.serverMetrics (publishEntries hostname entries g)
      !! (metric, labelsOf hostname e.1 e.2) = Some v' ∧
    e' ∈ entries ∧
    labelsOf hostname e'.1 e'.2 = labelsOf hostname e.1 e.2 ∧
    gaugeOf metric e'.2 = Some v'.
Proof.
  unfold publishEntries.
  induction entries as [|x entries IH] using rev_ind; intros g e metric He Hv.
  - by apply not_elem_of_nil in He.
  - rewrite foldl_app. cbn [foldl]. rewrite publishServer_lookup.
    destruct (decide (labelsOf hostname e.1 e.2 = labelsOf hostname x.1 x.2))
      as [Heq|Hne].
    + destruct (gaugeOf_is_Some metric e.2 x.2 Hv) as [v' Hv'].
      rewrite Hv'. exists v', x. split_and!; [done | | done | done].
      apply elem_of_app. right. by left.
    + apply elem_of_app in He as [He | ->%list_elem_of_singleton]; [|done].
      destruct (IH g e metric He Hv) as (v' & e' & ? & ? & ? & ?).
      exists v', e'. split_and!; [done | | done | done].
      apply elem_of_app. by left.
Qed.

Lemma foldl_bind {A B C} (f : C → B → C) (h : A → list B) (l : list A) :
  ∀ c, foldl f c (l ≫= h) = foldl (λ c x, foldl f c (h x)) c l.
Proof.
  induction l as [|x l IH]; intros c; csimpl; [done|].
  by rewrite foldl_app, IH.
Qed.

Lemma foldl_same {A B} (f g : B → A → B) l :
  (∀ b x, f b x = g b x) → ∀ b, foldl f b l = foldl g b l.
Proof.
  intros Hfg. induction l as [|x l IH]; intros b; simpl; [done|].
  by rewrite Hfg, IH.
Qed.

Lemma foldl_map {A A' B} (f : B → A' → B) (h : A → A') l :
  ∀ b, foldl f b (h <$> l) = foldl (λ b x, f b (h x)) b l.
Proof. induction l as [|x l IH]; intros b; csimpl; [done | by rewrite IH]. Qed.

Lemma publish_entries hostname stats g :
  publish hostname stats g
  = publishEntries hostname (entriesOf stats)
      (Gauges.setTwemproxy "current_connections" [hostname]
         (TwemproxyStats.CurrentConnections stats)
         (Gauges.setTwemproxy "total_connections" [hostname]
            (TwemproxyStats.TotalConnections stats) g)).
Proof.
  unfold publish, publishEntries, entriesOf. rewrite foldl_bind.
  apply foldl_same. intros g' [sn service]. rewrite foldl_map.
  apply foldl_same. by intros g'' [h ss].
Qed.

Lemma elem_of_entriesOf stats sn ss :
  (sn, ss) ∈ entriesOf stats ↔
  ∃ service h,
    TwemproxyStats.Services stats !! sn = Some service ∧
    ServiceStats.Servers service !! h = Some ss.
Proof.
  unfold entriesOf. rewrite list_elem_of_bind. split.
  - intros ([sn' service] & Hin & Hservice%elem_of_map_to_list).
    apply list_elem_of_fmap in Hin
      as ([h ss'] & [= -> ->] & Hss%elem_of_map_to_list).
    eauto.
  - intros (service & h & Hservice & Hss). exists (sn, service).
    rewrite elem_of_map_to_list. split; [|done].
    apply list_elem_of_fmap. exists (h, ss).
    by rewrite elem_of_map_to_list.
Qed.

(** X11. A publication sets the two top-level gauges of the host to the
    snapshot's connection counts and touches no other top-level gauge. *)
Theorem publish_top_level hostname stats g :
  Gauges.twemproxyMetrics (publish hostname stats g)
  = <[("current_connections", [hostname])
        := TwemproxyStats.CurrentConnections stats]>
      (<[("total_connections", [hostname])
           := TwemproxyStats.TotalConnections stats]>
         (Gauges.twemproxyMetrics g)).
Proof. by rewrite publish_entries, publishEntries_twemproxy. Qed.

(** X12. A publication never removes a server gauge, and a server gauge
    whose labels are those of no server of the snapshot keeps its value:
    the series of a backend that left the payload stay as they were. *)
Theorem publish_keeps_series hostname stats g metric labels :
  (is_Some (Gauges.serverMetrics g !! (metric, labels)) →
   is_Some (Gauges.serverMetrics (publish hostname stats g)
              !! (metric, labels))) ∧
  ((∀ sn ss, (sn, ss) ∈ entriesOf stats → labels ≠ labelsOf hostname sn ss) →
   Gauges.serverMetrics (publish hostname stats g) !! (metric, labels)
   = Gauges.serverMetrics g !! (metric, labels)).
Proof.
  rewrite publish_entries.
  set (g0 := Gauges.setTwemproxy _ _ _ _).
  change (Gauges.serverMetrics g) with (Gauges.serverMetrics g0).
  generalize g0. clear g0 g. generalize (entriesOf stats). intros entries.
  unfold publishEntries. split.
  - revert g0. induction entries as [|e entries IH]; intros g Hg;
      cbn [foldl]; [done|].
    apply IH. rewrite publishServer_lookup.
    destruct (if decide _ then _ else _); eauto.
  - revert g0. induction entries as [|e entries IH]; intros g Hne;
      cbn [foldl]; [done|].
    rewrite IH by (intros sn ss Hin; apply Hne; by right).
    rewrite publishServer_lookup, decide_False; [done|].
    destruct e as [sn ss]. apply Hne. by left.
Qed.

(** X13. After a publication, each of the seven gauges of a server of the
    snapshot holds the value of a server of that service with the same
    [HostAlias]: the server's own value when no other entry of the service
    shares its [HostAlias]. *)
Theorem publish_server_gauges hostname stats g sn service h ss metric v :
  TwemproxyStats.Services stats !! sn = Some service →
  ServiceStats.Servers service !! h = Some ss →
  gaugeOf metric ss = Some v →
  ∃ v',
    Gauges.serverMetrics (publish hostname stats g)
      !! (metric, [hostname; sn; ServerStats.HostAlias ss]) = Some v' ∧
    (∃ h' ss', ServiceStats.Servers service !! h' = Some ss' ∧
               ServerStats.HostAlias ss' = ServerStats.HostAlias ss ∧
               gaugeOf metric ss' = Some v') ∧
    ((∀ h' ss', ServiceStats.Servers service !! h' = Some ss' →
                ServerStats.HostAlias ss' = ServerStats.HostAlias ss →
                ss' = ss) →
     v' = v).
Proof.
  intros Hservice Hss Hv. rewrite publish_entries.
  set (g0 := Gauges.setTwemproxy _ _ _ _).
  assert ((sn, ss) ∈ entriesOf stats) as Hin
    by (apply elem_of_entriesOf; eauto).
  destruct (publishEntries_value hostname (entriesOf stats) g0 (sn, ss) metric
              Hin (mk_is_Some _ _ Hv))
    as (v' & [sn' ss'] & Hv' & Hin' & Hlabels & Hg).
  unfold labelsOf in Hlabels. cbn [fst snd] in *.
  injection Hlabels as -> Halias.
  apply elem_of_entriesOf in Hin' as (service' & h' & Hservice' & Hss').
  assert (service' = service) as -> by congruence.
  exists v'. split_and!; [done | by exists h', ss' |].
  intros Hunique. rewrite (Hunique h' ss' Hss' Halias) in Hg. congruence.
Qed.

(** The gauge of a server entry shows the counter it was read from. *)
Lemma gaugeOf_source metric field host hostAlias srv ss f :
  (metric, field) ∈ gaugeSource →
  serverStatsOf host hostAlias srv = Return ss →
  srv !! field = Some (JFloat64 f) →
  gaugeOf metric ss = Some f.
Proof.
  intros Hin Hss Hf.
  destruct (serverStatsOf_fields _ _ _ _ Hss)
    as (Heof & Herr & Hto & Hconn & Hej & _ & _ & _ & _ & Hq & Hqb & _ & _).
  unfold gaugeSource in Hin.
  repeat (apply elem_of_cons in Hin as [[= -> ->] | Hin];
          [rewrite gaugeOf_unfold, ?lookup_insert_ne by done;
           rewrite lookup_insert_eq; cbn; congruence|]).
  by apply not_elem_of_nil in Hin.
Qed.

Section cycle.
Context {json : Decoder}.

Lemma Run_Return hostname order m net g g' e :
  Run hostname order m net g = Return (g', e) ↔
  ∃ data readErr tw e',
    net = Connected data readErr ∧
    parseStats order (take (Z.to_nat 8192) data) (Monitor.Config m)
      = Return (tw, e') ∧
    g' = publish hostname tw g ∧ e = None.
Proof.
  unfold Run. split.
  - destruct net as [err|data readErr]; [done|].
    destruct (parseStats _ _ _) as [[tw e']|] eqn:Hparse; [|done].
    cbn [mbind outcome_bind fst].
    intros [= <- <-]. by exists data, readErr, tw, e'.
  - intros (data & readErr & tw & e' & -> & -> & -> & ->). done.
Qed.

(** X14. After a tick that returns, each of the seven gauges of a
    declared backend found in the payload, labelled with the host, the
    service and the backend's address, shows the counter of the backend's
    block it stands for, provided no other backend of the service has the
    same address or resolves to the same key. *)
Theorem tick_publishes_backend hostname order m data readErr stats key c
    service val srv metric field f g g' e :
  rangeOrder (Monitor.Config m) order →
  json_Unmarshal (take (Z.to_nat 8192) data) = inr stats →
  Monitor.Config m !! key = Some c → stats !! key = Some (JMap service) →
  val ∈ Config.Servers c →
  (∀ val', val' ∈ Config.Servers c →
           hostOf val' = hostOf val ∨ Server.IP val' = Server.IP val →
           val' = val) →
  service !! hostOf val = Some (JMap srv) →
  (metric, field) ∈ gaugeSource → srv !! field = Some (JFloat64 f) →
  Run hostname order m (Connected data readErr) g = Return (g', e) →
  Gauges.serverMetrics g' !! (metric, [hostname; key; Server.IP val])
  = Some f.
Proof.
  intros Horder Hdecode Hc Hs Hval Hunique Hsrv Hmetric Hf
    (data' & readErr' & tw & e' & [= <- <-] & Hparse & -> & _)%Run_Return.
  apply parseStats_Return
    in Hparse as [(err & ? & _) | (stats' & ? & _ & Htree)]; [congruence|].
  assert (stats' = stats) as -> by congruence.
  destruct (found_entry _ _ _ _ _ _ _ _ Horder Htree Hc Hs Hval
              (mk_is_Some _ _ Hsrv))
    as (sv & ss & val' & Hsv & Hstored & Hss & Hval' & Hkey & Hentry).
  assert (val' = val) as -> by (apply Hunique; auto).
  apply entryOf_fields in Hentry as (srv' & Hsrv' & Hfields).
  assert (srv' = srv) as -> by congruence.
  pose proof (gaugeOf_source _ _ _ _ _ _ _ Hmetric Hfields Hf) as Hgauge.
  apply serverStatsOf_Return in Hfields as (_ & Halias & _).
  rewrite publish_entries.
  set (g0 := Gauges.setTwemproxy _ _ _ _).
  assert ((key, ss) ∈ entriesOf tw) as Hin
    by (apply elem_of_entriesOf; eauto).
  destruct (publishEntries_value hostname (entriesOf tw) g0 (key, ss) metric
              Hin (mk_is_Some _ _ Hgauge))
    as (v' & [sn' ss'] & Hv' & Hin' & Hlabels & Hg).
  unfold labelsOf in Hlabels, Hv'. cbn [fst snd] in *.
  injection Hlabels as -> Halias'.
  rewrite Halias in Hv'. rewrite Hv'. f_equal.
  apply elem_of_entriesOf in Hin' as (sv' & h' & Hsv' & Hss').
  assert (sv' = sv) as -> by congruence.
  destruct (stored_entry _ _ _ _ _ _ Hstored Hss')
    as (service' & val'' & Hs' & Hval'' & <- & Hentry').
  assert (service' = service) as -> by congruence.
  assert (configAt (Monitor.Config m) key = c) as Hat
    by (unfold configAt; by rewrite Hc).
  rewrite Hat in Hval''.
  apply entryOf_Some in Hentry' as Hfacts.
  destruct Hfacts as (_ & _ & _ & Halias'' & _).
  assert (val'' = val) as -> by (apply Hunique; [done|]; right; congruence).
  assert (ss' = ss) as -> by congruence. congruence.
Qed.

End cycle.

(** ** Loading the topology *)

(** *** Server entries *)

Lemma splitSpace_cons s : ∃ piece pieces, splitSpace s = piece :: pieces.
Proof.
  induction s as [|c s (piece & pieces & IH)]; simpl; [by eexists _, _|].
  destruct (Ascii.eqb c Ascii.Space); [by eexists _, _|].
  rewrite IH. by eexists _, _.
Qed.

Lemma splitSpace_plain s : hasSpace s = false → splitSpace s = [s].
Proof.
  induction s as [|c s IH]; simpl; [done|].
  destruct (Ascii.eqb c Ascii.Space); [done|]. simpl.
  by intros ->%IH.
Qed.

Lemma splitSpace_app s rest :
  hasSpace s = false →
  splitSpace (s +:+ String Ascii.Space rest) = s :: splitSpace rest.
Proof.
  induction s as [|c s IH]; simpl; [done|].
  destruct (Ascii.eqb c Ascii.Space) eqn:Hc; [done|]. simpl.
  intros Hs. fold (String.append s (String Ascii.Space rest)).
  by rewrite (IH Hs).
Qed.

Lemma splitSpace_pieces s : Forall (λ p, hasSpace p = false) (splitSpace s).
Proof.
  induction s as [|c s IH]; simpl; [by repeat constructor|].
  destruct (Ascii.eqb c Ascii.Space) eqn:Hc; [by constructor|].
  destruct (splitSpace s) as [|piece pieces].
  - constructor; [|constructor]. simpl. by rewrite Hc.
  - inversion IH; subst. constructor; [|done]. simpl. by rewrite Hc.
Qed.

Lemma serverOf_parse s : serverOf s = Loaded (parseServer s).
Proof.
  unfold serverOf, parseServer.
  destruct (splitSpace_cons s) as (ip & pieces & ->). cbn.
  destruct pieces as [|alias pieces]; cbn.
  - rewrite decide_False by (unfold len; simpl; lia). done.
  - rewrite decide_True by (unfold len; simpl length; lia). done.
Qed.

(** X16. A server entry without space is an address with no alias; an
    address, a space and an alias give both, whatever follows a second
    space; after two spaces in a row the alias is empty. *)
Theorem server_entry_parsed ip alias rest :
  hasSpace ip = false → hasSpace alias = false →
  serverOf ip = Loaded (Server.mk ip "") ∧
  serverOf (ip +:+ " " +:+ alias) = Loaded (Server.mk ip alias) ∧
  serverOf (ip +:+ " " +:+ alias +:+ " " +:+ rest)
    = Loaded (Server.mk ip alias) ∧
  serverOf (ip +:+ "  " +:+ rest) = Loaded (Server.mk ip "").
Proof.
  intros Hip Halias. rewrite !serverOf_parse. unfold parseServer.
  change (ip +:+ " " +:+ alias +:+ " " +:+ rest)
    with (ip +:+ String Ascii.Space (alias +:+ String Ascii.Space rest)).
  change (ip +:+ " " +:+ alias) with (ip +:+ String Ascii.Space alias).
  change (ip +:+ "  " +:+ rest)
    with (ip +:+ String Ascii.Space (String Ascii.Space rest)).
  rewrite !splitSpace_app by done. rewrite !splitSpace_plain by done.
  by split_and!.
Qed.

(** X17. Reading a server entry never fails, and neither the address nor
    the alias it gives, hence not the key the backend is looked up under,
    holds a space. *)
Theorem server_entry_total s :
  ∃ server,
    serverOf s = Loaded server ∧
    hasSpace (Server.IP server) = false ∧
    hasSpace (Server.Alias server) = false ∧
    hasSpace (hostOf server) = false.
Proof.
  exists (parseServer s). split; [apply serverOf_parse|].
  assert (hasSpace (Server.IP (parseServer s)) = false ∧
          hasSpace (Server.Alias (parseServer s)) = false) as [Hip Halias].
  { unfold parseServer. pose proof (splitSpace_pieces s) as Hpieces.
    destruct (splitSpace s) as [|ip [|alias pieces]]; [done| |].
    - by inversion Hpieces.
    - inversion Hpieces as [|?? ? Hrest]. by inversion Hrest. }
  split_and!; [done | done |]. unfold hostOf. by case_decide.
Qed.

(** *** The loops *)

Lemma bind_Loaded {A B} (c : loaded A) (k : A → loaded B) b :
  c ≫= k = Loaded b ↔ ∃ a, c = Loaded a ∧ k a = Loaded b.
Proof.
  destruct c as [a|p]; simpl; split.
  - eauto.
  - by intros (a' & [= ->] & ?).
  - done.
  - by intros (? & ? & ?).
Qed.

Lemma yString_Loaded v s : yString v = Loaded s ↔ v = Some (YString s).
Proof.
  split; [|by intros ->]. destruct v as [[]|]; simpl; intros [=]. by subst.
Qed.

Lemma yBool_Loaded v b : yBool v = Loaded b ↔ v = Some (YBool b).
Proof.
  split; [|by intros ->]. destruct v as [[]|]; simpl; intros [=]. by subst.
Qed.

Lemma yInt_Loaded v z : yInt v = Loaded z ↔ v = Some (YInt z).
Proof.
  split; [|by intros ->]. destruct v as [[]|]; simpl; intros [=]. by subst.
Qed.

Lemma ySlice_Loaded v l : ySlice v = Loaded l ↔ v = Some (YSlice l).
Proof.
  split; [|by intros ->]. destruct v as [[]|]; simpl; intros [=]. by subst.
Qed.

Lemma yMap_Loaded v m : yMap v = Loaded m ↔ v = Some (YMap m).
Proof.
  split; [|by intros ->]. destruct v as [[]|]; simpl; intros [=]. by subst.
Qed.

Lemma servers_loop l : ∀ servers ex r,
  rangeL serverEntryBody l (servers, ex) = Loaded r →
  ∃ entries,
    l = YString <$> entries ∧
    r = (servers ++ (parseServer <$> entries), ex || bool_decide (l ≠ [])).
Proof.
  induction l as [|s l IH]; intros servers ex r; cbn [rangeL].
  - intros [= <-]. exists []. rewrite app_nil_r, orb_false_r. done.
  - intros ([servers' ex'] & Hbody & Hrest)%bind_Loaded.
    unfold serverEntryBody in Hbody.
    apply bind_Loaded in Hbody as (text & [= ->]%yString_Loaded & Hbody).
    rewrite serverOf_parse in Hbody. cbn in Hbody.
    injection Hbody as <- <-.
    apply IH in Hrest as (entries & -> & ->).
    exists (text :: entries). rewrite <- app_assoc, orb_true_r. done.
Qed.

Lemma configBody_Loaded confMap key confs ex confs' ex' :
  configAt confs key = blankConfig key →
  configBody confMap key (confs, ex) = Loaded (confs', ex') →
  ∃ vars c,
    confMap !! key = Some (YMap vars) ∧ builtFrom vars key c ∧
    confs' = <[key := c]> confs ∧
    ex' = ex || bool_decide (Config.Servers c ≠ []).
Proof.
  intros Hblank. unfold configBody. cbn [fst snd]. rewrite Hblank.
  intros (vars & Hvars%yMap_Loaded & Hbody)%bind_Loaded.
  apply bind_Loaded in Hbody as (hash & Hhash%yString_Loaded & Hbody).
  apply bind_Loaded in Hbody as (hashTag & HhashTag%yString_Loaded & Hbody).
  apply bind_Loaded in Hbody as (dist & Hdist%yString_Loaded & Hbody).
  apply bind_Loaded in Hbody as (auto & Hauto%yBool_Loaded & Hbody).
  apply bind_Loaded in Hbody as (timeout & Htimeout%yInt_Loaded & Hbody).
  apply bind_Loaded in Hbody as (redis & Hredis & Hbody).
  apply bind_Loaded in Hbody as (protocol & Hprotocol & Hbody).
  apply bind_Loaded in Hbody as (servers & Hservers%ySlice_Loaded & Hbody).
  apply bind_Loaded in Hbody as (r & Hloop & Hbody).
  apply servers_loop in Hloop as (entries & -> & ->).
  injection Hbody as <- <-. eexists vars, _.
  split; [done|]. split; [|split; [reflexivity|]].
  - unfold builtFrom. cbn. split_and!; try done.
    + destruct (vars !! "redis") as [val|]; [|injection Hredis as <-; auto].
      apply yBool_Loaded in Hredis as [= ->]. by left.
    + destruct (vars !! "protocol") as [val|];
        [|injection Hprotocol as <-; auto].
      apply yString_Loaded in Hprotocol as [= ->]. by left.
    + by exists entries.
  - cbn. f_equal. destruct entries; done.
Qed.

Lemma configs_loop confMap keys :
  NoDup keys →
  ∀ confs ex confs' ex',
    (∀ k, k ∈ keys → configAt confs k = blankConfig k) →
    rangeL (configBody confMap) keys (confs, ex) = Loaded (confs', ex') →
    (∀ k, k ∉ keys → confs' !! k = confs !! k) ∧
    (∀ k, k ∈ keys →
          ∃ vars c, confMap !! k = Some (YMap vars) ∧ builtFrom vars k c ∧
                    confs' !! k = Some c) ∧
    (ex' = true ↔
     ex = true ∨
     ∃ k c, k ∈ keys ∧ confs' !! k = Some c ∧ Config.Servers c ≠ []).
Proof.
  induction keys as [|key keys IH]; intros Hnodup confs ex confs' ex' Hblank;
    cbn [rangeL].
  - intros [= <- <-]. split_and!; [done | by intros k ?%not_elem_of_nil |].
    split; [auto|]. intros [? | (k & c & ?%not_elem_of_nil & _)]; done.
  - apply NoDup_cons in Hnodup as [Hkey Hnodup].
    intros ([confs1 ex1] & Hbody & Hrest)%bind_Loaded.
    apply configBody_Loaded in Hbody as (vars & c & Hvars & Hbuilt & -> & ->);
      [|apply Hblank; left].
    apply IH in Hrest as (Hother & Hkeys & Hex); [|done|].
    + split_and!.
      * intros k [Hne Hk]%not_elem_of_cons.
        by rewrite Hother, lookup_insert_ne.
      * intros k [->|Hk]%elem_of_cons; [|by apply Hkeys].
        exists vars, c. rewrite Hother by done.
        by rewrite lookup_insert_eq.
      * rewrite Hex, orb_true_iff, bool_decide_eq_true. split.
        -- intros [[? | Hc] | (k & c' & ? & ? & ?)]; [by left | |].
           ++ right. exists key, c. rewrite Hother by done.
              rewrite lookup_insert_eq. split_and!; [left | done | done].
           ++ right. exists k, c'. split_and!; [by right | done | done].
        -- intros [? | (k & c' & [->|Hk]%elem_of_cons & Hc' & Hne)];
             [by left; left | |].
           ++ rewrite Hother, lookup_insert_eq in Hc' by done.
              injection Hc' as <-. left. by right.
           ++ right. by exists k, c'.
    + intros k Hk. unfold configAt. rewrite lookup_insert_ne by congruence.
      apply Hblank. by right.
Qed.

Lemma initialConfs_lookup confMap k :
  initialConfs confMap !! k = (λ _, blankConfig k) <$> confMap !! k.
Proof.
  unfold initialConfs. rewrite map_lookup_imap. by destruct (confMap !! k).
Qed.

Lemma builtFrom_mandatory vars key c :
  builtFrom vars key c → mandatoryPresent vars = true.
Proof.
  intros (_ & H1 & H2 & H3 & H4 & H5 & _ & _ & entries & H6 & _).
  unfold mandatoryPresent. by rewrite H1, H2, H3, H4, H5, H6.
Qed.

(** *** Crashes *)

Lemma bind_Crashed {A B} (c : loaded A) (k : A → loaded B) p :
  c ≫= k = Crashed p → c = Crashed p ∨ ∃ a, c = Loaded a ∧ k a = Crashed p.
Proof. destruct c as [a|p']; simpl; [eauto | intros [= ->]; by left]. Qed.

Lemma yString_Crashed v p : yString v = Crashed p → conversionCrash p.
Proof.
  unfold conversionCrash. destruct v as [[]|]; simpl; intros [=]; eauto.
Qed.

Lemma yBool_Crashed v p : yBool v = Crashed p → conversionCrash p.
Proof.
  unfold conversionCrash. destruct v as [[]|]; simpl; intros [=]; eauto.
Qed.

Lemma yInt_Crashed v p : yInt v = Crashed p → conversionCrash p.
Proof.
  unfold conversionCrash. destruct v as [[]|]; simpl; intros [=]; eauto.
Qed.

Lemma ySlice_Crashed v p : ySlice v = Crashed p → conversionCrash p.
Proof.
  unfold conversionCrash. destruct v as [[]|]; simpl; intros [=]; eauto.
Qed.

Lemma yMap_Crashed v p : yMap v = Crashed p → conversionCrash p.
Proof.
  unfold conversionCrash. destruct v as [[]|]; simpl; intros [=]; eauto.
Qed.

Lemma rangeL_Crashed {A S} (body : A → S → loaded S) l : ∀ s p,
  rangeL body l s = Crashed p → ∃ x s', x ∈ l ∧ body x s' = Crashed p.
Proof.
  induction l as [|x l IH]; intros s p; cbn [rangeL]; [done|].
  intros [Hx | (s' & _ & (y & s'' & ? & ?)%IH)]%bind_Crashed.
  - exists x, s. split; [left | done].
  - exists y, s''. split; [by right | done].
Qed.

Lemma serverEntryBody_Crashed s st p :
  serverEntryBody s st = Crashed p → conversionCrash p.
Proof.
  unfold serverEntryBody.
  intros [?%yString_Crashed | (text & _ & Hp)]%bind_Crashed; [done|].
  by rewrite serverOf_parse in Hp.
Qed.

Lemma configBody_Crashed confMap key st p :
  configBody confMap key st = Crashed p → conversionCrash p.
Proof.
  unfold configBody. intros Hp.
  apply bind_Crashed in Hp as [?%yMap_Crashed | (vars & _ & Hp)]; [done|].
  apply bind_Crashed in Hp as [?%yString_Crashed | (? & _ & Hp)]; [done|].
  apply bind_Crashed in Hp as [?%yString_Crashed | (? & _ & Hp)]; [done|].
  apply bind_Crashed in Hp as [?%yString_Crashed | (? & _ & Hp)]; [done|].
  apply bind_Crashed in Hp as [?%yBool_Crashed | (? & _ & Hp)]; [done|].
  apply bind_Crashed in Hp as [?%yInt_Crashed | (? & _ & Hp)]; [done|].
  apply bind_Crashed in Hp as [Hredis | (? & _ & Hp)].
  { destruct (vars !! "redis"); [by apply yBool_Crashed in Hredis | done]. }
  apply bind_Crashed in Hp as [Hprotocol | (? & _ & Hp)].
  { destruct (vars !! "protocol");
      [by apply yString_Crashed in Hprotocol | done]. }
  apply bind_Crashed in Hp as [?%ySlice_Crashed | (? & _ & Hp)]; [done|].
  apply bind_Crashed in Hp as [Hloop | (? & _ & Hp)]; [|done].
  apply rangeL_Crashed in Hloop as (s & st' & _ & Hs).
  by apply serverEntryBody_Crashed in Hs.
Qed.

Section loading.
Context {fs : FileSystem} {yaml : YamlDecoder}.

Lemma LoadConfig_decoded order path content confMap :
  path ≠ "" →
  ioutil_ReadFile path = inr content →
  yaml_Unmarshal content = inr confMap →
  LoadConfig order path =
  st ← rangeL (configBody confMap) order (initialConfs confMap, false);
  if negb st.2 then Loaded (∅, Some ErrNoServersDetected)
  else Loaded (st.1, None).
Proof.
  intros Hpath Hread Hdecode. unfold LoadConfig.
  by rewrite decide_False, Hread, Hdecode.
Qed.

(** What the second loop leaves, when it returns. *)
Lemma loaded_loop order confMap confs ex :
  rangeOrder (initialConfs confMap) order →
  rangeL (configBody confMap) order (initialConfs confMap, false)
    = Loaded (confs, ex) →
  (∀ k, is_Some (confs !! k) ↔ is_Some (confMap !! k)) ∧
  (∀ k c, confs !! k = Some c →
          ∃ vars, confMap !! k = Some (YMap vars) ∧ builtFrom vars k c) ∧
  (ex = true ↔ ∃ k c, confs !! k = Some c ∧ Config.Servers c ≠ []).
Proof.
  intros Horder Hloop.
  assert (∀ k, k ∈ order ↔ is_Some (confMap !! k)) as Hkeys.
  { intros k. rewrite (rangeOrder_elem_of _ order k Horder).
    rewrite initialConfs_lookup. by rewrite fmap_is_Some. }
  apply configs_loop in Hloop as (Hother & Hbuilt & Hex);
    [|by eapply rangeOrder_NoDup|].
  - split_and!.
    + intros k. destruct (decide (k ∈ order)) as [Hk|Hk].
      * destruct (Hbuilt k Hk) as (vars & c & -> & _ & ->). split; eauto.
      * rewrite (Hother k Hk), initialConfs_lookup, fmap_is_Some. done.
    + intros k c Hc. destruct (decide (k ∈ order)) as [Hk|Hk].
      * destruct (Hbuilt k Hk) as (vars & c' & ? & ? & Hc').
        exists vars. split; [done|]. congruence.
      * rewrite (Hother k Hk), initialConfs_lookup in Hc.
        apply fmap_Some in Hc as (v & Hv & _).
        destruct Hk. apply Hkeys. eauto.
    + rewrite Hex. split.
      * intros [? | (k & c & _ & ? & ?)]; [done | eauto].
      * intros (k & c & Hc & Hne). right. exists k, c.
        split_and!; [|done..].
        destruct (decide (k ∈ order)) as [Hk|Hk]; [done|].
        rewrite (Hother k Hk), initialConfs_lookup in Hc.
        apply fmap_Some in Hc as (v & Hv & _).
        destruct Hk. apply Hkeys. eauto.
  - intros k Hk. apply Hkeys in Hk as [v Hv].
    unfold configAt. by rewrite initialConfs_lookup, Hv.
Qed.

(** X18. A topology that [LoadConfig] returns has the services of the
    file, each named by its key and holding the fields of its block:
    [redis] and [protocol] default to false and empty when absent, and
    the servers are the entries of the block, read in order. *)
Theorem loaded_fields order path content confMap confs :
  ioutil_ReadFile path = inr content →
  yaml_Unmarshal content = inr confMap →
  rangeOrder (initialConfs confMap) order →
  LoadConfig order path = Loaded (confs, None) →
  (∀ key, is_Some (confs !! key) ↔ is_Some (confMap !! key)) ∧
  (∀ key c, confs !! key = Some c →
            ∃ vars, confMap !! key = Some (YMap vars) ∧ builtFrom vars key c).
Proof.
  intros Hread Hdecode Horder Hload.
  destruct (decide (path = "")) as [->|Hpath];
    [unfold LoadConfig in Hload; by rewrite decide_True in Hload|].
  rewrite (LoadConfig_decoded _ _ _ _ Hpath Hread Hdecode) in Hload.
  apply bind_Loaded in Hload as ([confs' ex] & Hloop & Hload).
  cbn [fst snd] in Hload. destruct ex; [|done]. injection Hload as <-.
  by destruct (loaded_loop _ _ _ _ Horder Hloop) as (? & ? & _).
Qed.

(** X19. When the file is read and decoded and the loop returns,
    [LoadConfig] returns the topology exactly when some service lists a
    server, and the topology then declares at least one backend;
    otherwise every service's list is empty and it returns no topology
    and [ErrNoServersDetected]. *)
Theorem loaded_has_backend order path content confMap confs e :
  path ≠ "" →
  ioutil_ReadFile path = inr content →
  yaml_Unmarshal content = inr confMap →
  rangeOrder (initialConfs confMap) order →
  LoadConfig order path = Loaded (confs, e) →
  (e = None ∧ (0 < totalBackends confs)%nat) ∨
  (e = Some ErrNoServersDetected ∧ confs = ∅ ∧
   ∀ key vars, confMap !! key = Some (YMap vars) →
               vars !! "servers" = Some (YSlice [])).
Proof.
  intros Hpath Hread Hdecode Horder Hload.
  rewrite (LoadConfig_decoded _ _ _ _ Hpath Hread Hdecode) in Hload.
  apply bind_Loaded in Hload as ([confs' ex] & Hloop & Hload).
  cbn [fst snd] in Hload.
  destruct (loaded_loop _ _ _ _ Horder Hloop) as (Hkeys & Hbuilt & Hex).
  destruct ex; injection Hload as <- <-.
  - left. split; [done|].
    destruct (proj1 Hex eq_refl) as (k & c & Hc & Hne).
    apply elem_of_map_to_list in Hc.
    pose proof (sum_list_with_in (k, c)
                  (λ kc, length (Config.Servers kc.2)) _ Hc) as Hle.
    unfold totalBackends. simpl in Hle.
    destruct (Config.Servers c); [done|]. simpl in Hle. lia.
  - right. split_and!; [done..|]. intros key vars Hvars.
    destruct (proj2 (Hkeys key) (mk_is_Some _ _ Hvars)) as [c Hc].
    destruct (Hbuilt key c Hc) as (vars' & Hvars' & Hfrom).
    unfold builtFrom in Hfrom.
    destruct Hfrom as (_ & _ & _ & _ & _ & _ & _ & _ & entries & Hs & Hc').
    assert (vars' = vars) as -> by congruence.
    destruct entries as [|entry entries]; [done|].
    assert (false = true) as Habs; [|done].
    apply Hex. exists key, c. split; [done|]. by rewrite Hc'.
Qed.

(** X20. [LoadConfig] returns an error in four cases only, and never a
    topology with it: the empty path, before any file is read; a file
    that cannot be read, with the path and the cause in the message; a
    file that does not decode, with the decoder's error; no server in any
    service. *)
Theorem load_errors order path confs err :
  LoadConfig order path = Loaded (confs, Some err) →
  confs = ∅ ∧
  (path = "" ∧ err = ErrPathEmpty ∨
   path ≠ "" ∧
   ((∃ cause, ioutil_ReadFile path = inl cause ∧
              err = Error ("Cannot open: " +:+ path +:+ ". Error: "
                             +:+ errorText cause)) ∨
    ∃ content, ioutil_ReadFile path = inr content ∧
      (yaml_Unmarshal content = inl err ∨
       (∃ confMap, yaml_Unmarshal content = inr confMap) ∧
       err = ErrNoServersDetected))).
Proof.
  unfold LoadConfig. destruct (decide (path = "")) as [->|Hpath].
  - intros [= <- <-]. split; [done|]. by left.
  - destruct (ioutil_ReadFile path) as [cause|content] eqn:Hread.
    + intros [= <- <-]. split; [done|]. right. split; [done|]. left. eauto.
    + destruct (yaml_Unmarshal content) as [err'|confMap] eqn:Hdecode.
      * intros [= <- <-]. split; [done|]. right. split; [done|].
        right. exists content. split; [done|]. by left.
      * intros ([confs' ex] & _ & Hload)%bind_Loaded. cbn [fst snd] in Hload.
        destruct ex; [done|]. injection Hload as <- <-.
        split; [done|]. right. split; [done|].
        right. exists content. split; [done|]. right. eauto.
Qed.

(** X21. When the value under a service name is not a block, or the block
    lacks one of [hash], [hash_tag], [distribution], [auto_eject_hosts],
    [timeout] and [servers] or holds it with another type, [LoadConfig]
    returns nothing: the type assertion panics. *)
Theorem missing_setting_crashes order path content confMap key v :
  path ≠ "" →
  ioutil_ReadFile path = inr content →
  yaml_Unmarshal content = inr confMap →
  rangeOrder (initialConfs confMap) order →
  confMap !! key = Some v → serviceWellFormed v = false →
  ∃ dyn want, LoadConfig order path = Crashed (YamlConversion dyn want).
Proof.
  intros Hpath Hread Hdecode Horder Hv Hbad.
  rewrite (LoadConfig_decoded _ _ _ _ Hpath Hread Hdecode).
  destruct (rangeL _ _ _) as [[confs ex]|p] eqn:Hloop.
  - destruct (loaded_loop _ _ _ _ Horder Hloop) as (Hkeys & Hbuilt & _).
    destruct (proj2 (Hkeys key) (mk_is_Some _ _ Hv)) as [c Hc].
    destruct (Hbuilt key c Hc) as (vars & Hvars & Hfrom).
    apply builtFrom_mandatory in Hfrom.
    assert (v = YMap vars) as -> by congruence. simpl in Hbad. congruence.
  - apply rangeL_Crashed in Hloop as (k & st & _ & Hk).
    apply configBody_Crashed in Hk as (dyn & want & ->).
    by exists dyn, want.
Qed.

(** X22. Whatever the file holds, [LoadConfig] panics only on a type
    assertion: the pieces of a server entry are never indexed out of
    range. *)
Theorem load_crashes_on_assertions order path p :
  LoadConfig order path = Crashed p →
  ∃ dyn want, p = YamlConversion dyn want.
Proof.
  unfold LoadConfig. destruct (decide (path = "")); [done|].
  destruct (ioutil_ReadFile path) as [|content]; [done|].
  destruct (yaml_Unmarshal content) as [|confMap]; [done|].
  intros [Hloop | ([confs ex] & _ & Hp)]%bind_Crashed.
  - apply rangeL_Crashed in Hloop as (k & st & _ & Hk).
    by apply configBody_Crashed in Hk.
  - cbn [fst snd] in Hp. by destruct ex.
Qed.
End loading.

(** ** The further properties on the samples *)

Lemma header_copied_witness :
  Sample.payload !! "service"
    = Some (JString (TwemproxyStats.Service Sample.snapshot)) ∧
  Sample.payload !! "source"
    = Some (JString (TwemproxyStats.Source Sample.snapshot)) ∧
  Sample.payload !! "total_connections"
    = Some (JFloat64 (TwemproxyStats.TotalConnections Sample.snapshot)) ∧
  Sample.payload !! "curr_connections"
    = Some (JFloat64 (TwemproxyStats.CurrentConnections Sample.snapshot)).
Proof.
  apply (header_copied (json := Sample.decoder Sample.payload)
           Sample.order Sample.bytes Sample.topology Sample.payload
           Sample.snapshot None).
  - reflexivity.
  - vm_compute. reflexivity.
Defined.

Lemma service_counters_copied_witness :
  ServiceStats.Name Sample.alphaStats = "alpha" ∧
  ∃ service,
    Sample.payload !! "alpha" = Some (JMap service) ∧
    service !! "client_eof"
      = Some (JFloat64 (ServiceStats.ClientEOF Sample.alphaStats)) ∧
    service !! "client_err"
      = Some (JFloat64 (ServiceStats.ClientErr Sample.alphaStats)) ∧
    service !! "client_connections"
      = Some (JFloat64 (ServiceStats.ClientConnections Sample.alphaStats)) ∧
    service !! "server_ejects"
      = Some (JFloat64 (ServiceStats.ServerEjects Sample.alphaStats)) ∧
    service !! "forward_error"
      = Some (JFloat64 (ServiceStats.ForwardError Sample.alphaStats)) ∧
    service !! "fragments"
      = Some (JFloat64 (ServiceStats.Fragments Sample.alphaStats)).
Proof.
  apply (service_counters_copied (json := Sample.decoder Sample.payload)
           Sample.order Sample.bytes Sample.topology Sample.payload
           Sample.snapshot None).
  - reflexivity.
  - vm_compute. reflexivity.
  - vm_compute. reflexivity.
Defined.

Lemma server_counters_copied_witness :
  ∃ service srv,
    Sample.payload !! "alpha" = Some (JMap service) ∧
    service !! "cache2" = Some (JMap srv) ∧
    srv !! "server_connections"
      = Some (JFloat64 (ServerStats.ServerConnections Sample.cache2Stats)) ∧
    srv !! "requests"
      = Some (JFloat64 (ServerStats.Requests Sample.cache2Stats)).
Proof.
  destruct (server_counters_copied (json := Sample.decoder Sample.payload)
              Sample.order Sample.bytes Sample.topology Sample.payload
              Sample.snapshot None "alpha" Sample.alphaStats "cache2"
              Sample.cache2Stats)
    as (service & srv & Hs & Hsrv & _ & _ & _ & Hconn & _ & Hreq & _).
  - reflexivity.
  - vm_compute. reflexivity.
  - vm_compute. reflexivity.
  - vm_compute. reflexivity.
  - by exists service, srv.
Defined.

Lemma services_keys_witness :
  is_Some (TwemproxyStats.Services Sample.snapshot !! "beta") ↔
  is_Some (Sample.topology !! "beta") ∧ is_Some (Sample.payload !! "beta").
Proof.
  apply (services_keys (json := Sample.decoder Sample.payload)
           Sample.order Sample.bytes Sample.topology Sample.payload
           Sample.snapshot "beta").
  - unfold rangeOrder. reflexivity.
  - reflexivity.
  - vm_compute. reflexivity.
Defined.

Lemma unused_key_ignored_witness :
  parseStats (json := More.decoder2 Sample.payload More.noisy)
    Sample.order [Byte.x7b; Byte.x7d] Sample.topology
  = parseStats (json := More.decoder2 Sample.payload More.noisy)
      Sample.order Sample.bytes Sample.topology.
Proof.
  apply (unused_key_ignored (json := More.decoder2 Sample.payload More.noisy)
           Sample.order Sample.bytes [Byte.x7b; Byte.x7d] Sample.topology
           Sample.payload "uptime" (Sample.num 5)).
  - unfold rangeOrder. reflexivity.
  - vm_compute. reflexivity.
  - intros Hin.
    repeat (apply elem_of_cons in Hin as [Hin|Hin]; [discriminate Hin|]).
    inversion Hin.
  - reflexivity.
  - reflexivity.
Defined.

Lemma counts_exact_witness :
  TwemproxyStats.ExpectedAvailable Sample.snapshot
    = Z.of_nat (presentBackends Sample.payload Sample.topology) ∧
  TwemproxyStats.NotAvailable Sample.snapshot
    = Z.of_nat (downBackends Sample.payload Sample.topology) ∧
  0 ≤ TwemproxyStats.NotAvailable Sample.snapshot.
Proof.
  apply (counts_exact (json := Sample.decoder Sample.payload)
           Sample.order Sample.bytes Sample.topology Sample.payload
           Sample.snapshot None).
  - unfold rangeOrder. reflexivity.
  - by vm_compute.
  - reflexivity.
  - vm_compute. reflexivity.
Defined.

Lemma empty_block_all_down_witness :
  ∃ sv,
    TwemproxyStats.Services More.bareSnapshot !! "alpha" = Some sv ∧
    ServiceStats.NotAvailable sv = len (Config.Servers Sample.alpha) ∧
    ServiceStats.ExpectedAvailable sv = len (Config.Servers Sample.alpha) ∧
    ServiceStats.Servers sv = ∅.
Proof.
  apply (empty_block_all_down (json := Sample.decoder More.bare)
           ["alpha"] Sample.bytes Sample.alphaOnly More.bare
           More.bareSnapshot None "alpha" Sample.alpha (Sample.service [])).
  - unfold rangeOrder. vm_compute. reflexivity.
  - by vm_compute.
  - reflexivity.
  - vm_compute. reflexivity.
  - vm_compute. reflexivity.
  - vm_compute. reflexivity.
  - intros val Hval.
    apply elem_of_cons in Hval as [->|Hval]; [vm_compute; reflexivity|].
    apply elem_of_cons in Hval as [->|Hval]; [vm_compute; reflexivity|].
    inversion Hval.
Defined.

Lemma unaliased_host_key_witness :
  ∃ sv ss,
    TwemproxyStats.Services More.fullSnapshot !! "alpha" = Some sv ∧
    ServiceStats.Servers sv !! "10.0.0.1" = Some ss ∧
    ServerStats.Host ss = "10.0.0.1" ∧
    ServerStats.HostAlias ss = "10.0.0.1".
Proof.
  destruct (unaliased_host_key (json := Sample.decoder Sample.full)
              ["alpha"] Sample.bytes Sample.alphaOnly Sample.full
              "alpha" Sample.alpha
              (Sample.service [("10.0.0.1", JMap (Sample.backend 2));
                               ("cache2", JMap (Sample.backend 5))])
              (Server.mk "10.0.0.1" "") More.fullSnapshot None)
    as (sv & ss & Hsv & Hss & Hhost & Halias).
  - unfold rangeOrder. vm_compute. reflexivity.
  - reflexivity.
  - vm_compute. reflexivity.
  - vm_compute. reflexivity.
  - vm_compute. reflexivity.
  - left.
  - reflexivity.
  - vm_compute. eauto.
  - exists sv, ss. split_and!; [exact Hsv | exact Hss | exact Hhost |].
    apply Halias. intros val' Hval' Hkey.
    apply elem_of_cons in Hval' as [->|Hval']; [reflexivity|].
    apply elem_of_cons in Hval' as [->|Hval']; [discriminate Hkey|].
    inversion Hval'.
Defined.


Lemma publish_server_gauges_witness :
  ∃ v',
    Gauges.serverMetrics (publish "host1" Sample.snapshot Gauges.empty)
      !! ("server_connection",
          ["host1"; "alpha"; ServerStats.HostAlias Sample.cache2Stats])
    = Some v' ∧
    v' = More.five.
Proof.
  destruct (publish_server_gauges "host1" Sample.snapshot Gauges.empty
              "alpha" Sample.alphaStats "cache2" Sample.cache2Stats
              "server_connection" More.five)
    as (v' & Hv' & _ & Hown).
  - vm_compute. reflexivity.
  - vm_compute. reflexivity.
  - vm_compute. reflexivity.
  - exists v'. split; [exact Hv'|]. apply Hown. intros h' ss' Hss' _.
    assert (ServiceStats.Servers Sample.alphaStats
            = {["cache2" := Sample.cache2Stats]}) as Hservers
      by (vm_compute; reflexivity).
    rewrite Hservers in Hss'.
    by apply lookup_singleton_Some in Hss' as [_ <-].
Defined.

Lemma tick_publishes_backend_witness :
  Gauges.serverMetrics More.published
    !! ("server_connection", ["host1"; "alpha"; "10.0.0.2"])
  = Some More.five.
Proof.
  apply (tick_publishes_backend (json := Sample.decoder Sample.payload)
           "host1" Sample.order More.monitor Sample.bytes None
           Sample.payload "alpha" Sample.alpha
           (Sample.service [("cache2", JMap (Sample.backend 5))])
           Sample.cache2 (Sample.backend 5)
           "server_connection" "server_connections" More.five
           Gauges.empty More.published None).
  - unfold rangeOrder. reflexivity.
  - reflexivity.
  - vm_compute. reflexivity.
  - vm_compute. reflexivity.
  - right. left.
  - intros val' Hval' Hsame.
    apply elem_of_cons in Hval' as [->|Hval'];
      [destruct Hsame as [Hsame|Hsame]; discriminate Hsame|].
    apply elem_of_cons in Hval' as [->|Hval']; [reflexivity|].
    inversion Hval'.
  - vm_compute. reflexivity.
  - do 5 right. left.
  - vm_compute. reflexivity.
  - unfold Run, More.published.
    assert (parseStats (json := Sample.decoder Sample.payload) Sample.order
              (take (Z.to_nat 8192) Sample.bytes)
              (Monitor.Config More.monitor)
            = Return (Sample.snapshot, None)) as ->
      by (vm_compute; reflexivity).
    reflexivity.
Defined.

Lemma server_entry_parsed_witness :
  serverOf "10.0.0.2:6379:1" = Loaded (Server.mk "10.0.0.2:6379:1" "") ∧
  serverOf "10.0.0.2:6379:1 cache2"
    = Loaded (Server.mk "10.0.0.2:6379:1" "cache2") ∧
  serverOf "10.0.0.2:6379:1 cache2 spare"
    = Loaded (Server.mk "10.0.0.2:6379:1" "cache2") ∧
  serverOf "10.0.0.2:6379:1  spare" = Loaded (Server.mk "10.0.0.2:6379:1" "").
Proof.
  apply (server_entry_parsed "10.0.0.2:6379:1" "cache2" "spare");
    reflexivity.
Defined.

Lemma loaded_fields_witness :
  (∀ key, is_Some (({["alpha" := Nutcracker.loadedAlpha]}
                      : gmap string Config.t) !! key)
          ↔ is_Some (Nutcracker.doc !! key)) ∧
  (∀ key c,
     ({["alpha" := Nutcracker.loadedAlpha]} : gmap string Config.t) !! key
       = Some c →
     ∃ vars, Nutcracker.doc !! key = Some (YMap vars) ∧ builtFrom vars key c).
Proof.
  apply (loaded_fields (fs := Nutcracker.files)
           (yaml := Nutcracker.decoder Nutcracker.doc)
           ["alpha"] "nutcracker.yml" [Byte.x61]).
  - reflexivity.
  - reflexivity.
  - unfold rangeOrder. vm_compute. reflexivity.
  - vm_compute. reflexivity.
Defined.

Lemma loaded_has_backend_witness :
((None : option error) = None ∧
   (0 < totalBackends {["alpha" := Nutcracker.loadedAlpha]})%nat) ∨
  ((None : option error) = Some ErrNoServersDetected ∧
   ({["alpha" := Nutcracker.loadedAlpha]} : gmap string Config.t) = ∅ ∧
   ∀ key vars, Nutcracker.doc !! key = Some (YMap vars) →
               vars !! "servers" = Some (YSlice [])).
Proof.
  apply (loaded_has_backend (fs := Nutcracker.files)
           (yaml := Nutcracker.decoder Nutcracker.doc)
           ["alpha"] "nutcracker.yml" [Byte.x61]).
  - discriminate.
  - reflexivity.
  - reflexivity.
  - unfold rangeOrder. vm_compute. reflexivity.
  - vm_compute. reflexivity.
Defined.

Lemma load_errors_witness :
  (∅ : gmap string Config.t) = ∅ ∧
  ("missing.yml" = "" ∧
   Error "Cannot open: missing.yml. Error: open: no such file or directory"
   = ErrPathEmpty ∨
   "missing.yml" ≠ "" ∧
   ((∃ cause,
       ioutil_ReadFile (FileSystem := Nutcracker.files) "missing.yml"
         = inl cause ∧
       Error "Cannot open: missing.yml. Error: open: no such file or directory"
       = Error ("Cannot open: " +:+ "missing.yml" +:+ ". Error: "
                  +:+ errorText cause)) ∨
    ∃ content,
      ioutil_ReadFile (FileSystem := Nutcracker.files) "missing.yml"
        = inr content ∧
      (yaml_Unmarshal (YamlDecoder := Nutcracker.decoder Nutcracker.doc)
         content
       = inl (Error
           "Cannot open: missing.yml. Error: open: no such file or directory") ∨
       (∃ confMap,
          yaml_Unmarshal (YamlDecoder := Nutcracker.decoder Nutcracker.doc)
            content = inr confMap) ∧
       Error "Cannot open: missing.yml. Error: open: no such file or directory"
       = ErrNoServersDetected))).
Proof.
  apply (load_errors (fs := Nutcracker.files)
           (yaml := Nutcracker.decoder Nutcracker.doc) ["alpha"]).
  vm_compute. reflexivity.
Defined.

Lemma missing_setting_crashes_witness :
  ∃ dyn want,
    LoadConfig (fs := Nutcracker.files)
      (yaml := Nutcracker.decoder Nutcracker.broken) ["alpha"] "nutcracker.yml"
    = Crashed (YamlConversion dyn want).
Proof.
  apply (missing_setting_crashes (fs := Nutcracker.files)
           (yaml := Nutcracker.decoder Nutcracker.broken)
           ["alpha"] "nutcracker.yml" [Byte.x61] Nutcracker.broken "alpha"
           (YMap (delete "hash" Nutcracker.alpha))).
  - discriminate.
  - reflexivity.
  - reflexivity.
  - unfold rangeOrder. vm_compute. reflexivity.
  - vm_compute. reflexivity.
  - vm_compute. reflexivity.
Defined.

Lemma load_crashes_on_assertions_witness :
  ∃ dyn want, YamlConversion YTNil YTString = YamlConversion dyn want.
Proof.
  apply (load_crashes_on_assertions (fs := Nutcracker.files)
           (yaml := Nutcracker.decoder Nutcracker.broken)
           ["alpha"] "nutcracker.yml").
  vm_compute. reflexivity.
Defined.
